(** * log-portal: the polling engine of [portal/portal.go], embedded in Rocq

    The Go package [portal] tails a remote log file over HTTP range
    requests, mirrors it to the console and/or a local file, rotates the
    local mirror when the remote file shrinks and sweeps expired archives.

    The embedding keeps the shape of the source:
    - [int64] values are integers of [Z] with the wrap-around of every
      arithmetic operation written out ([Int64.wrap]);
    - Go strings are byte strings ([string] of [ascii]);
    - the methods of [*Portal] are functions in a small state monad over the
      receiver and the history of the calls made to the outside world (HTTP
      client, file system, clock, standard output);
    - the outside world is a record of oracles [Env] that answer each call
      from the history so far, so every theorem holds for every behaviour of
      the network, the file system and the clock. *)

From Stdlib Require Import ZArith Lia Bool List String Ascii.
Import ListNotations.
Open Scope string_scope.
Open Scope Z_scope.

Set Implicit Arguments.

(* ================================================================== *)
(** ** Machine integers *)

Module Int64.
Definition modulus : Z := 2 ^ 64.
Definition min_int : Z := - 2 ^ 63.
Definition max_int : Z := 2 ^ 63 - 1.

(** Two's-complement reduction of a mathematical integer to [int64]. *)
Definition wrap (z : Z) : Z := (z + 2 ^ 63) mod modulus - 2 ^ 63.

Definition in_range (z : Z) : Prop := min_int <= z <= max_int.

Definition add (a b : Z) : Z := wrap (a + b).
Definition sub (a b : Z) : Z := wrap (a - b).
Definition mul (a b : Z) : Z := wrap (a * b).
End Int64.

(* ================================================================== *)
(** ** Byte strings: the parts of Go's [strings] and [fmt] the package uses *)

Module Str.

Definition len (s : string) : Z := Z.of_nat (String.length s).

Definition of_char (c : ascii) : string := String c EmptyString.

(** [strings.Split(s, sep)] for a one-byte separator: every occurrence of
    the separator ends a field; the result always has at least one field. *)
Fixpoint Split (sep : ascii) (s : string) : list string :=
  match s with
  | EmptyString => [EmptyString]
  | String c rest =>
      if Ascii.eqb c sep then EmptyString :: Split sep rest
      else match Split sep rest with
           | [] => [of_char c]
           | f :: fs => String c f :: fs
           end
  end.

(** [strings.SplitN(s, sep, 2)] for a one-byte separator: the string is cut
    at the first occurrence of the separator only. *)
Fixpoint SplitN2 (sep : ascii) (s : string) : list string :=
  match s with
  | EmptyString => [EmptyString]
  | String c rest =>
      if Ascii.eqb c sep then [EmptyString; rest]
      else match SplitN2 sep rest with
           | f :: fs => String c f :: fs
           | [] => [of_char c]
           end
  end.

(** [s[n:]] and [s[:n]] on byte offsets. *)
Fixpoint drop (n : nat) (s : string) : string :=
  match n, s with
  | O, _ => s
  | S n', String _ rest => drop n' rest
  | S _, EmptyString => EmptyString
  end.

Fixpoint take (n : nat) (s : string) : string :=
  match n, s with
  | O, _ => EmptyString
  | S n', String c rest => String c (take n' rest)
  | S _, EmptyString => EmptyString
  end.

(** [strings.HasSuffix(s, suffix)]. *)
Definition HasSuffix (s suffix : string) : bool :=
  (String.length suffix <=? String.length s)%nat
  && String.eqb (drop (String.length s - String.length suffix) s) suffix.

Fixpoint contains (c : ascii) (s : string) : bool :=
  match s with
  | EmptyString => false
  | String c' rest => Ascii.eqb c' c || contains c rest
  end.

Definition digit (d : Z) : ascii := ascii_of_nat (48 + Z.to_nat d).

(** Decimal digits of a non-negative integer, most significant first. *)
Fixpoint utoa_fuel (fuel : nat) (u : Z) (acc : string) : string :=
  match fuel with
  | O => acc
  | S f =>
      let acc' := String (digit (u mod 10)) acc in
      if u <? 10 then acc' else utoa_fuel f (u / 10) acc'
  end.

Definition utoa (u : Z) : string :=
  utoa_fuel (S (Z.to_nat (Z.log2 u))) u EmptyString.

(** The verb [%d] of [fmt] on an integer. *)
Definition fmt_d (z : Z) : string :=
  if z <? 0 then "-" ++ utoa (- z) else utoa z.

Fixpoint zeros (n : nat) : string :=
  match n with O => EmptyString | S n' => String "0" (zeros n') end.

End Str.

(* ================================================================== *)
(** ** Go's [time] package, as far as [portal.go] uses it

    Modelled from the documented behaviour of the Go standard library (the
    library is not part of the repository): an instant is a count of seconds
    and nanoseconds since the Unix epoch; a location maps an instant to the
    zone in force; calendar fields follow the proleptic Gregorian calendar.
    The zone table of ["Asia/Shanghai"] comes from the host's tz database and
    is a parameter ([Location]) of everything below. *)

Module GoTime.

Record Time := mkTime { unixSec : Z; nsec : Z }.

(** A zone as [Location.lookup] reports it: the offset east of UTC in
    seconds and the half-open interval of instants in which it applies. *)
Record zone := mkZone { offset : Z; zstart : Z; zend : Z }.

Definition Location := Z -> zone.

Record civil := mkCivil {
  year : Z; month : Z; day : Z;
  hour : Z; minute : Z; second : Z; nano : Z
}.

(** [t.UnixMilli()]: [t.unixSec()*1e3 + int64(t.nsec())/1e6] on [int64]. *)
Definition UnixMilli (t : Time) : Z :=
  Int64.add (Int64.mul (unixSec t) 1000) (Z.quot (nsec t) 1000000).

Definition isLeap (y : Z) : bool :=
  (y mod 4 =? 0) && (negb (y mod 100 =? 0) || (y mod 400 =? 0)).

Definition daysIn (m y : Z) : Z :=
  if m =? 2 then (if isLeap y then 29 else 28)
  else if (m =? 4) || (m =? 6) || (m =? 9) || (m =? 11) then 30
  else 31.

(** Days from 1970-01-01 to the given proleptic Gregorian date. *)
Definition days_from_civil (y m d : Z) : Z :=
  let y' := if m <=? 2 then y - 1 else y in
  let era := y' / 400 in
  let yoe := y' - era * 400 in
  let mp := (m + 9) mod 12 in
  let doy := (153 * mp + 2) / 5 + d - 1 in
  let doe := yoe * 365 + yoe / 4 - yoe / 100 + doy in
  era * 146097 + doe - 719468.

(** The date of a day count: the inverse of [days_from_civil]. *)
Definition civil_from_days (days : Z) : Z * Z * Z :=
  let z := days + 719468 in
  let era := z / 146097 in
  let doe := z - era * 146097 in
  let yoe := (doe - doe / 1460 + doe / 36524 - doe / 146096) / 365 in
  let doy := doe - (365 * yoe + yoe / 4 - yoe / 100) in
  let mp := (5 * doy + 2) / 153 in
  let d := doy - (153 * mp + 2) / 5 + 1 in
  let m := if mp <? 10 then mp + 3 else mp - 9 in
  let y := yoe + era * 400 in
  (if m <=? 2 then y + 1 else y, m, d).

(** [t.In(loc)] read back as calendar fields ([Date], [Clock],
    [Nanosecond]). *)
Definition In (loc : Location) (t : Time) : civil :=
  let abs := unixSec t + offset (loc (unixSec t)) in
  let '(y, m, d) := civil_from_days (abs / 86400) in
  let rem := abs mod 86400 in
  mkCivil y m d (rem / 3600) ((rem mod 3600) / 60) (rem mod 60) (nsec t).

(** [time.Date(y, m, d, h, mi, s, ns, loc)] on fields that are already in
    range: the instant whose wall clock in [loc] shows the fields.  The
    zone is looked up at the wall-clock reading taken as UTC, and looked up
    again when the first guess falls outside the zone it names. *)
Definition Date (loc : Location) (c : civil) : Time :=
  let unix := days_from_civil (year c) (month c) (day c) * 86400
              + hour c * 3600 + minute c * 60 + second c in
  let z := loc unix in
  let off :=
    if offset z =? 0 then 0
    else
      let utc := unix - offset z in
      if (utc <? zstart z) || (zend z <=? utc) then offset (loc utc)
      else offset z in
  mkTime (unix - off) (nano c).

(** *** Formatting with the layout ["2006-01-02T15-04-05.000"] *)

(** [appendInt(b, x, width)]: decimal, zero-padded on the left to [width]
    digits, with a leading minus sign for negative numbers. *)
Definition appendInt (x : Z) (width : nat) : string :=
  let u := Z.abs x in
  let ds := Str.utoa u in
  (if x <? 0 then "-" else "")
    ++ Str.zeros (width - String.length ds) ++ ds.

(** [appendNano] for [stdFracSecond0] with three digits: the separator and
    the first three of the nine digits of the nanosecond field. *)
Definition appendNano3 (ns : Z) : string :=
  "." ++ Str.take 3 (appendInt ns 9).

(** [Time.Format(timeLayout)] on the calendar fields of the receiver: the
    layout's chunks are year (4), month (2), day (2), hour (2), minute (2),
    second (2) and a three-digit fraction, with the literals [-], [T] and
    [-] between them. *)
Definition FormatCivil (c : civil) : string :=
  appendInt (year c) 4 ++ "-" ++ appendInt (month c) 2 ++ "-"
    ++ appendInt (day c) 2 ++ "T" ++ appendInt (hour c) 2 ++ "-"
    ++ appendInt (minute c) 2 ++ "-" ++ appendInt (second c) 2
    ++ appendNano3 (nano c).

Definition Format (loc : Location) (t : Time) : string :=
  FormatCivil (In loc t).

(** *** Parsing with the layout ["2006-01-02T15-04-05.000"] *)

Definition isDigit (c : ascii) : bool :=
  (48 <=? nat_of_ascii c)%nat && (nat_of_ascii c <=? 57)%nat.

Definition digitVal (c : ascii) : Z := Z.of_nat (nat_of_ascii c) - 48.

(** [getnum(s, fixed)]: one or two leading digits; two are required when
    [fixed] is set. *)
Definition getnum (s : string) (fixed : bool) : option (Z * string) :=
  match s with
  | String c0 rest =>
      if isDigit c0 then
        match rest with
        | String c1 rest' =>
            if isDigit c1 then Some (digitVal c0 * 10 + digitVal c1, rest')
            else if fixed then None else Some (digitVal c0, rest)
        | EmptyString => if fixed then None else Some (digitVal c0, rest)
        end
      else None
  | EmptyString => None
  end.

(** [leadingInt(s)]: the longest prefix of digits as an unsigned 64-bit
    number, failing on overflow, with the rest of the string. *)
Fixpoint leadingInt (s : string) (x : Z) : option (Z * string) :=
  match s with
  | String c rest =>
      if isDigit c then
        if x >? 2 ^ 63 / 10 then None
        else
          let x' := x * 10 + digitVal c in
          if x' >? 2 ^ 63 then None else leadingInt rest x'
      else Some (x, s)
  | EmptyString => Some (x, s)
  end.

(** [atoi(s)]: an optional sign and then digits only. *)
Definition atoi (s : string) : option Z :=
  let '(neg, body) :=
    match s with
    | String c rest =>
        if Ascii.eqb c "-" then (true, rest)
        else if Ascii.eqb c "+" then (false, rest)
        else (false, s)
    | EmptyString => (false, s)
    end in
  match leadingInt body 0 with
  | Some (q, EmptyString) =>
      let x := Int64.wrap q in
      Some (if neg : bool then Int64.wrap (- x) else x)
  | _ => None
  end.

(** [skip(value, prefix)] for a one-byte literal other than a space. *)
Definition skip (lit : ascii) (value : string) : option string :=
  match value with
  | String c rest => if Ascii.eqb c lit then Some rest else None
  | EmptyString => None
  end.

Definition commaOrPeriod (c : ascii) : bool :=
  Ascii.eqb c "." || Ascii.eqb c ",".

(** [parseNanoseconds(value, 4)]: a separator and three characters read by
    [atoi], scaled to nanoseconds. *)
Definition parseNanoseconds4 (value : string) : option Z :=
  match value with
  | String c rest =>
      if commaOrPeriod c then
        match atoi (Str.take 3 rest) with
        | Some ns => if ns <? 0 then None else Some (ns * 1000000)
        | None => None
        end
      else None
  | EmptyString => None
  end.

Definition obind {A B : Type} (o : option A) (k : A -> option B) : option B :=
  match o with Some a => k a | None => None end.

Definition guard (b : bool) {B : Type} (k : option B) : option B :=
  if b then k else None.

(** The chunk-by-chunk loop of [time.parse] unrolled on the chunks of the
    layout, followed by the validation of the day of the month. *)
Definition parseCivil (value : string) : option civil :=
  (* stdLongYear *)
  guard ((4 <=? String.length value)%nat
         && match value with String c _ => isDigit c | _ => false end)
  (obind (atoi (Str.take 4 value)) (fun y =>
  let value := Str.drop 4 value in
  (* "-" stdZeroMonth *)
  obind (skip "-" value) (fun value =>
  obind (getnum value true) (fun '(mo, value) =>
  guard (negb ((mo <=? 0) || (12 <? mo)))
  (* "-" stdZeroDay *)
  (obind (skip "-" value) (fun value =>
  obind (getnum value true) (fun '(d, value) =>
  (* "T" stdHour *)
  obind (skip "T" value) (fun value =>
  obind (getnum value false) (fun '(h, value) =>
  guard (negb ((h <? 0) || (24 <=? h)))
  (* "-" stdZeroMinute *)
  (obind (skip "-" value) (fun value =>
  obind (getnum value true) (fun '(mi, value) =>
  guard (negb ((mi <? 0) || (60 <=? mi)))
  (* "-" stdZeroSecond *)
  (obind (skip "-" value) (fun value =>
  obind (getnum value true) (fun '(sec, value) =>
  guard (negb ((sec <? 0) || (60 <=? sec)))
  (* stdFracSecond0, three digits *)
  (guard (4 <=? String.length value)%nat
  (obind (parseNanoseconds4 value) (fun ns =>
  let value := Str.drop 4 value in
  (* extra text *)
  guard (String.length value =? 0)%nat
  (* day out of range *)
  (guard (negb ((d <? 1) || (daysIn mo y <? d)))
     (Some (mkCivil y mo d h mi sec ns))))))))))))))))))))).

(** [time.ParseInLocation(timeLayout, value, loc)]. *)
Definition ParseInLocation (loc : Location) (value : string) : option Time :=
  match parseCivil value with
  | Some c => Some (Date loc c)
  | None => None
  end.

End GoTime.

(* ================================================================== *)
(** ** The outside world *)

(** A Go [error] value.  The package only tests errors against [nil] and
    prints them with [%v], so an error is its message. *)
Definition error := string.

Inductive result (A : Type) : Type :=
| Ok (a : A)
| Err (e : error).
Arguments Ok {A} a.
Arguments Err {A} e.

(** An open [*os.File]. *)
Definition handle := nat.

(** The writers handed to [io.MultiWriter]. *)
Inductive Sink :=
| Stdout
| FileSink (f : handle).

(** The value of [io.MultiWriter(writers...)]: its writers, in order. *)
Definition Writer := list Sink.

Record Request := mkRequest {
  Method : string;
  ReqURL : string;
  Header : list (string * string)
}.

Record Response := mkResponse {
  StatusCode : Z;
  ContentLength : Z
}.

(** What [filepath.WalkDir] observes of the file system while it walks: for
    every directory the entries [os.ReadDir] returned for it (possibly
    together with an error), for any other entry its name alone. *)
Unset Elimination Schemes.
Inductive DirTree :=
| File (name : string)
| Directory (name : string) (entries : list DirTree) (readErr : option error).
Set Elimination Schemes.

Definition Name (d : DirTree) : string :=
  match d with File n => n | Directory n _ _ => n end.

Definition IsDir (d : DirTree) : bool :=
  match d with File _ => false | Directory _ _ _ => true end.

(** One call to the outside world together with its answer.  [EvRotateFile]
    is a ghost event: it marks an entry into the method [RotateFile], so that
    invocations can be counted also when the method does nothing else. *)
Inductive Event :=
| EvNewRequest (method url : string) (r : option error)
| EvDo (req : Request) (r : result Response)
| EvBodyClose
| EvCopy (dst : Writer) (r : option error)
| EvSync (f : handle) (r : option error)
| EvClose (f : handle) (r : option error)
| EvRename (oldpath newpath : string) (r : option error)
| EvOpenFile (path : string) (flag perm : Z) (r : result handle)
| EvMkdirAll (path : string) (perm : Z) (r : option error)
| EvRemove (name : string) (r : option error)
| EvReadDir (path : string) (r : option error)
| EvNow (t : GoTime.Time)
| EvPrint (s : string)
| EvRotateFile.

(** The history of a run, most recent event first. *)
Definition History := list Event.

(** The environment: each oracle answers a call from the history so far.
    [filepath_Join] is the pure library function [filepath.Join] on two
    elements; [location] is the package variable of the same name, the result
    of [time.LoadLocation("Asia/Shanghai")]. *)
Record Env := mkEnv {
  http_NewRequest : History -> string -> string -> option error;
  client_Do : History -> Request -> result Response;
  io_Copy : History -> Writer -> option error;
  file_Sync : History -> handle -> option error;
  file_Close : History -> handle -> option error;
  os_Rename : History -> string -> string -> option error;
  os_OpenFile : History -> string -> Z -> Z -> result handle;
  os_MkdirAll : History -> string -> Z -> option error;
  os_Remove : History -> string -> option error;
  time_Now : History -> GoTime.Time;
  filepath_Join : string -> string -> string;
  location : GoTime.Location
}.

(** [os.O_RDWR], [os.O_CREATE] and [os.O_APPEND] (their Linux values). *)
Definition O_RDWR : Z := 2.
Definition O_CREATE : Z := 64.
Definition O_APPEND : Z := 1024.

Definition StatusOK : Z := 200.
Definition StatusPartialContent : Z := 206.

Definition timeLayout : string := "2006-01-02T15-04-05.000".

Definition nl : string := String (ascii_of_nat 10) EmptyString.

(* ================================================================== *)
(** ** The session: [type Portal struct] *)

Record Portal := mkPortal {
  URL : string;
  Tail : Z;
  Interval : Z;
  Dir : string;
  Lifetime : Z;
  ConsolePortal : bool;
  FilePortal : bool;
  offset : Z;
  filename : string;
  file : option handle;
  writer : Writer
}.

Definition set_offset (v : Z) (p : Portal) : Portal :=
  mkPortal (URL p) (Tail p) (Interval p) (Dir p) (Lifetime p)
           (ConsolePortal p) (FilePortal p) v (filename p) (file p) (writer p).

Definition set_filename (v : string) (p : Portal) : Portal :=
  mkPortal (URL p) (Tail p) (Interval p) (Dir p) (Lifetime p)
           (ConsolePortal p) (FilePortal p) (offset p) v (file p) (writer p).

Definition set_ConsolePortal (v : bool) (p : Portal) : Portal :=
  mkPortal (URL p) (Tail p) (Interval p) (Dir p) (Lifetime p)
           v (FilePortal p) (offset p) (filename p) (file p) (writer p).

Definition set_file (v : option handle) (p : Portal) : Portal :=
  mkPortal (URL p) (Tail p) (Interval p) (Dir p) (Lifetime p)
           (ConsolePortal p) (FilePortal p) (offset p) (filename p) v (writer p).

Definition set_writer (v : Writer) (p : Portal) : Portal :=
  mkPortal (URL p) (Tail p) (Interval p) (Dir p) (Lifetime p)
           (ConsolePortal p) (FilePortal p) (offset p) (filename p) (file p) v.

(** The assignments of [SetupWriter] once the live file is open. *)
Definition enable_file (f : handle) (dir : string) (lifetime : Z) (p : Portal) : Portal :=
  mkPortal (URL p) (Tail p) (Interval p) dir lifetime
           (ConsolePortal p) true (offset p) (filename p) (Some f) (writer p).

(** [New(url, interval, tail)]. *)
Definition New (url : string) (interval tail : Z) : Portal :=
  mkPortal url tail interval "" 0 true false 0 "" None [].

(* ================================================================== *)
(** ** The monad of the methods: receiver and history *)

Record State := mkState { self : Portal; hist : History }.

Definition M (A : Type) : Type := State -> A * State.

Definition ret {A : Type} (a : A) : M A := fun s => (a, s).

Definition bind {A B : Type} (m : M A) (k : A -> M B) : M B :=
  fun s => let (a, s') := m s in k a s'.

Declare Scope portal_scope.
Delimit Scope portal_scope with portal.
Notation "x <- m ;; k" := (bind m (fun x => k))
  (at level 100, m at next level, right associativity) : portal_scope.
Notation "' pat <- m ;; k" := (bind m (fun pat => k))
  (at level 100, pat pattern, m at next level, right associativity) : portal_scope.
Notation "m ;; k" := (bind m (fun _ => k))
  (at level 100, right associativity) : portal_scope.
Open Scope portal_scope.

Definition get : M Portal := fun s => (self s, s).

Definition modify (f : Portal -> Portal) : M unit :=
  fun s => (tt, mkState (f (self s)) (hist s)).

(** Make a call: ask the oracle with the history so far and record the
    call with its answer. *)
Definition call {A : Type} (ask : History -> A) (ev : A -> Event) : M A :=
  fun s => let a := ask (hist s) in (a, mkState (self s) (ev a :: hist s)).

Definition emit (ev : Event) : M unit :=
  fun s => (tt, mkState (self s) (ev :: hist s)).

Definition run {A : Type} (m : M A) (p : Portal) (h : History) : A * State :=
  m (mkState p h).

(* ================================================================== *)
(** ** The methods of [*Portal] *)

Section Methods.

Variable E : Env.

Definition Printf (s : string) : M unit := emit (EvPrint s).

Definition nil_file : error := "invalid argument".

(** [p.LogName()]: the last of the fields of the URL between slashes. *)
Definition LogName (p : Portal) : string :=
  let fields := Str.Split "/" (URL p) in
  if (0 <? List.length fields)%nat then nth (List.length fields - 1) fields ""
  else "".

(** [p.Init()]. *)
Definition Init : M (option error) :=
  p <- get ;;
  let filename := LogName p in
  if String.eqb filename "" then
    ret (Some ("invalid log file url: {" ++ URL p ++ "}"))
  else
    modify (set_filename filename) ;;
    ret None.

(** [p.SetupWriter(disableConsole, enableFile, dir, lifetime)]. *)
Definition SetupWriter (disableConsole enableFile : bool) (dir : string)
           (lifetime : Z) : M (option error) :=
  (if disableConsole then modify (set_ConsolePortal false) else ret tt) ;;
  p <- get ;;
  let writers : Writer := if ConsolePortal p then [Stdout] else [] in
  if enableFile then
    if String.eqb dir "" then ret (Some ("invalid log dir[" ++ dir ++ "]"))
    else
      r <- call (fun h => os_MkdirAll E h dir 493) (EvMkdirAll dir 493) ;;
      match r with
      | Some err => ret (Some ("make mkdir[" ++ dir ++ "]: " ++ err))
      | None =>
          let path := filepath_Join E dir (filename p) in
          let flag := Z.lor (Z.lor O_CREATE O_APPEND) O_RDWR in
          r <- call (fun h => os_OpenFile E h path flag 420)
                    (EvOpenFile path flag 420) ;;
          match r with
          | Err err => ret (Some ("open file[" ++ path ++ "]: " ++ err))
          | Ok f =>
              modify (enable_file f dir lifetime) ;;
              modify (set_writer (writers ++ [FileSink f])%list) ;;
              ret None
          end
      end
  else
    modify (set_writer writers) ;;
    ret None.

(** [p.LogSize()]: the pair of results [(int64, error)]. *)
Definition LogSize : M (Z * option error) :=
  p <- get ;;
  reqErr <- call (fun h => http_NewRequest E h "HEAD" (URL p))
                 (EvNewRequest "HEAD" (URL p)) ;;
  match reqErr with
  | Some e => ret (0, Some ("create new request: " ++ e))
  | None =>
      let req := mkRequest "HEAD" (URL p) [] in
      r <- call (fun h => client_Do E h req) (EvDo req) ;;
      match r with
      | Err e => ret (0, Some ("http head: " ++ e))
      | Ok resp =>
          (* defer resp.Body.Close() *)
          if negb (StatusCode resp =? StatusOK) then
            emit EvBodyClose ;;
            ret (0, Some ("unexpected status code: " ++ Str.fmt_d (StatusCode resp)))
          else
            emit EvBodyClose ;;
            ret (ContentLength resp, None)
      end
  end.

(** The value of the [Range] header: [fmt.Sprintf("bytes=%d-%d", start, end-1)]. *)
Definition range_header (start end_ : Z) : string :=
  "bytes=" ++ Str.fmt_d start ++ "-" ++ Str.fmt_d (Int64.sub end_ 1).

(** [p.FetchIncrContent(start, end)]. *)
Definition FetchIncrContent (start end_ : Z) : M (option error) :=
  p <- get ;;
  reqErr <- call (fun h => http_NewRequest E h "GET" (URL p))
                 (EvNewRequest "GET" (URL p)) ;;
  match reqErr with
  | Some e => ret (Some ("create new request: " ++ e))
  | None =>
      let req := mkRequest "GET" (URL p) [("Range", range_header start end_)] in
      r <- call (fun h => client_Do E h req) (EvDo req) ;;
      match r with
      | Err e => ret (Some ("http get: " ++ e))
      | Ok resp =>
          (* defer resp.Body.Close() *)
          if negb (StatusCode resp =? StatusPartialContent) then
            emit EvBodyClose ;;
            ret (Some ("unexpected status code: " ++ Str.fmt_d (StatusCode resp)))
          else
            err <- call (fun h => io_Copy E h (writer p)) (EvCopy (writer p)) ;;
            emit EvBodyClose ;;
            match err with
            | Some e => ret (Some ("copy response body: " ++ e))
            | None => ret None
            end
      end
  end.

(** [p.initialFetch()]. *)
Definition initialFetch : M (Z * option error) :=
  '(currSize, getErr) <- LogSize ;;
  match getErr with
  | Some e => ret (0, Some ("get log size: " ++ e ++ nl))
  | None =>
      p <- get ;;
      if currSize =? 0 then ret (0, None)
      else if currSize <? Tail p then ret (0, None)
      else
        let start := Int64.sub currSize (Tail p) in
        err <- FetchIncrContent start currSize ;;
        match err with
        | Some e => ret (0, Some e)
        | None => ret (currSize, None)
        end
  end.

(** The archive name of [RotateFile]: the prefix is the live filename,
    or its first field when it splits at dots into exactly two. *)
Definition archive_prefix (filename : string) : string :=
  let fields := Str.Split "." filename in
  if (List.length fields =? 2)%nat then nth 0 fields "" else filename.

Definition archive_name (filename timeStr : string) : string :=
  archive_prefix filename ++ "-" ++ timeStr ++ ".log".

(** [p.RotateFile()]. *)
Definition RotateFile : M (option error) :=
  emit EvRotateFile ;;
  p <- get ;;
  if negb (FilePortal p) then ret None
  else
    syncErr <- match file p with
               | Some f => call (fun h => file_Sync E h f) (EvSync f)
               | None => ret (Some nil_file)
               end ;;
    match syncErr with
    | Some e => ret (Some ("sync file: " ++ e))
    | None =>
        closeErr <- match file p with
                    | Some f => call (fun h => file_Close E h f) (EvClose f)
                    | None => ret (Some nil_file)
                    end ;;
        match closeErr with
        | Some e => ret (Some ("close file: " ++ e))
        | None =>
            let path := filepath_Join E (Dir p) (filename p) in
            now <- call (time_Now E) EvNow ;;
            let timeStr := GoTime.Format (location E) now in
            let archivedFilename := archive_name (filename p) timeStr in
            let archivedPath := filepath_Join E (Dir p) archivedFilename in
            renErr <- call (fun h => os_Rename E h path archivedPath)
                           (EvRename path archivedPath) ;;
            match renErr with
            | Some e => ret (Some ("rename file: " ++ e))
            | None =>
                let flag := Z.lor (Z.lor O_CREATE O_APPEND) O_RDWR in
                r <- call (fun h => os_OpenFile E h path flag 420)
                          (EvOpenFile path flag 420) ;;
                match r with
                | Err e => ret (Some ("open new file: " ++ e))
                | Ok newFile =>
                    modify (set_file (Some newFile)) ;;
                    p <- get ;;
                    let writers : Writer :=
                      (FileSink newFile
                         :: (if ConsolePortal p then [Stdout] else []))%list in
                    modify (set_writer writers) ;;
                    ret None
                end
            end
        end
    end.

(** The closure [match] of [Clean]: is the name that of an archive whose
    timestamp is at least [Lifetime] days old? *)
Definition match_ (filename : string) : M bool :=
  p <- get ;;
  now <- call (time_Now E) EvNow ;;
  match Str.SplitN2 "-" filename with
  | [_; fn] =>
      let suffix := ".log" in
      if negb (Str.HasSuffix fn suffix) then ret false
      else
        let prefix := Str.take (String.length fn - String.length suffix) fn in
        match GoTime.ParseInLocation (location E) prefix with
        | None => ret false
        | Some t =>
            if Int64.sub (GoTime.UnixMilli now) (GoTime.UnixMilli t)
               <? Int64.mul (Int64.mul (Int64.mul (Int64.mul (Lifetime p) 24) 60) 60) 1000
            then ret false
            else ret true
        end
  | _ => ret false
  end.

(** The function literal handed to [filepath.WalkDir].  [WalkDir] passes a
    nil entry only together with an error, which the first statement
    returns; the entry is not read before that. *)
Definition visit (path : string) (d : option DirTree) (err : option error)
  : M (option error) :=
  match err with
  | Some e => ret (Some e)
  | None =>
      match d with
      | None => ret (Some "invalid memory address or nil pointer dereference")
      | Some d =>
          if IsDir d then ret None
          else
            p <- get ;;
            let p_filename := filename p in
            let filename := Name d in
            if String.eqb filename p_filename then ret None
            else
              m <- match_ filename ;;
              if negb m then ret None
              else
                osErr <- call (fun h => os_Remove E h filename) (EvRemove filename) ;;
                match osErr with
                | Some e => ret (Some e)
                | None => ret None
                end
      end
  end.

(** The loop [for _, d1 := range dirs] of [filepath.walkDir]: walk the
    entries in order, stopping at the first error. *)
Section Range.
Variable walk : string -> DirTree -> M (option error).
Variable path : string.

Fixpoint range_dirs (dirs : list DirTree) : M (option error) :=
  match dirs with
  | [] => ret None
  | d1 :: rest =>
      let path1 := filepath_Join E path (Name d1) in
      err <- walk path1 d1 ;;
      match err with
      | Some e => ret (Some e)
      | None => range_dirs rest
      end
  end.
End Range.

(** [filepath.walkDir(path, d, fn)] over the observed tree.  The callback
    never returns [SkipDir] or [SkipAll] (it returns [nil], the error it was
    given or the error of [os.Remove]), so any error ends the walk. *)
Fixpoint walkDir (fn : string -> option DirTree -> option error -> M (option error))
         (path : string) (d : DirTree) {struct d} : M (option error) :=
  err <- fn path (Some d) None ;;
  match err with
  | Some e => ret (Some e)
  | None =>
      match d with
      | File _ => ret None
      | Directory _ dirs readErr =>
          emit (EvReadDir path readErr) ;;
          err <- match readErr with
                 | Some e => fn path (Some d) (Some e)
                 | None => ret None
                 end ;;
          match err with
          | Some e => ret (Some e)
          | None => range_dirs (walkDir fn) path dirs
          end
      end
  end.

(** [filepath.WalkDir(root, fn)]: [lstat] is the answer of [os.Lstat(root)],
    with the tree below the root when it succeeds. *)
Definition WalkDir (root : string) (lstat : result DirTree)
           (fn : string -> option DirTree -> option error -> M (option error))
  : M (option error) :=
  match lstat with
  | Err e => fn root None (Some e)
  | Ok d => walkDir fn root d
  end.

(** [p.Clean()]. *)
Definition Clean (lstat : result DirTree) : M (option error) :=
  p <- get ;;
  err <- WalkDir (Dir p) lstat visit ;;
  match err with
  | Some e => ret (Some e)
  | None => ret None
  end.

(** One iteration of the loop [for range p.ticker.C] of [Start]. *)
Definition tick : M unit :=
  '(currSize, getErr) <- LogSize ;;
  match getErr with
  | Some e => Printf ("get log size: " ++ e ++ nl)        (* continue *)
  | None =>
      p <- get ;;
      if currSize >? offset p then
        err <- FetchIncrContent (offset p) currSize ;;
        match err with
        | Some e => Printf ("fetch incremental content: " ++ e ++ nl)  (* continue *)
        | None => modify (set_offset currSize)                         (* continue *)
        end
      else if currSize <? offset p then
        (* remote log rotated *)
        err <- RotateFile ;;
        (match err with
         | Some e => Printf ("rotate file: " ++ e ++ nl)
         | None => ret tt
         end) ;;
        modify (set_offset 0)
      else ret tt
  end.

Fixpoint ticks (n : nat) : M unit :=
  match n with
  | O => ret tt
  | S k => tick ;; ticks k
  end.

(** [Start] up to its loop: the banner and the initial fetch.  The value
    returned is that of the local variable [currSize] when the loop is
    entered.  (The goroutine that runs [Clean] every ten seconds is
    scheduled on its own and is not part of this sequence.) *)
Definition Start_before_loop : M Z :=
  p <- get ;;
  Printf ("[Portal]: fetching {" ++ URL p ++ "}..." ++ nl) ;;
  '(currSize, getErr) <- initialFetch ;;
  (match getErr with
   | Some e => Printf ("initial fetch: " ++ e ++ nl)
   | None => ret tt
   end) ;;
  ret currSize.

(** [p.Start()] for a ticker that fires [n] times. *)
Definition Start (n : nat) : M unit :=
  Start_before_loop ;; ticks n.

(** [p.Finalize()], the ticker aside. *)
Definition Finalize : M unit :=
  RotateFile ;;
  p <- get ;;
  match file p with
  | Some f =>
      call (fun h => file_Sync E h f) (EvSync f) ;;
      call (fun h => file_Close E h f) (EvClose f) ;;
      ret tt
  | None => ret tt
  end.

End Methods.

(* ================================================================== *)
(** ** Observations on histories and trees *)

(** How many times [RotateFile] was entered. *)
Fixpoint rotations (h : History) : nat :=
  match h with
  | [] => O
  | EvRotateFile :: rest => S (rotations rest)
  | _ :: rest => rotations rest
  end.

(** The names handed to [os.Remove], most recent first. *)
Fixpoint removals (h : History) : list string :=
  match h with
  | [] => []
  | EvRemove n _ :: rest => n :: removals rest
  | _ :: rest => removals rest
  end.

(** The directories listed by [os.ReadDir], most recent first. *)
Fixpoint listings (h : History) : list string :=
  match h with
  | [] => []
  | EvReadDir path _ :: rest => path :: listings rest
  | _ :: rest => listings rest
  end.

(** The writers [io.Copy] was pointed at, most recent first. *)
Fixpoint copies (h : History) : list Writer :=
  match h with
  | [] => []
  | EvCopy w _ :: rest => w :: copies rest
  | _ :: rest => copies rest
  end.

(** The files opened, with the flags, most recent first. *)
Fixpoint opens (h : History) : list (string * Z) :=
  match h with
  | [] => []
  | EvOpenFile path flag _ _ :: rest => (path, flag) :: opens rest
  | _ :: rest => opens rest
  end.

(** Every entry of an observed tree, the root included, in walk order. *)
Fixpoint nodes (d : DirTree) : list DirTree :=
  d :: match d with
       | File _ => []
       | Directory _ dirs _ => flat_map nodes dirs
       end.

(** The entries a directory lists itself. *)
Definition immediate (d : DirTree) : list DirTree :=
  match d with
  | File _ => []
  | Directory _ dirs _ => dirs
  end.

(* ================================================================== *)
(** ** The sentences of the specification, stated on their own terms *)

(** A name of the form [<prefix>-<timestamp>.log] whose timestamp parses in
    the layout, read to the instant [t]. *)
Definition archive_pattern (loc : GoTime.Location) (name prefix : string)
           (t : GoTime.Time) : Prop :=
  exists ts, name = prefix ++ "-" ++ ts ++ ".log"
             /\ GoTime.ParseInLocation loc ts = Some t.

(** The age of the archive read at [now] reaches [lifetime] days. *)
Definition age_reaches (now t : GoTime.Time) (lifetime : Z) : Prop :=
  GoTime.UnixMilli now - GoTime.UnixMilli t >= lifetime * (24 * 60 * 60 * 1000).

(** The retention rule as the specification words it. *)
Definition expired_archive (loc : GoTime.Location) (now : GoTime.Time)
           (lifetime : Z) (name : string) : Prop :=
  exists prefix t, archive_pattern loc name prefix t /\ age_reaches now t lifetime.

(** An archive name whose prefix itself contains a hyphen. *)
Definition hyphenated_archive (loc : GoTime.Location) (name : string) : Prop :=
  exists prefix t, archive_pattern loc name prefix t
                   /\ Str.contains "-" prefix = true.

(** The largest number of days whose milliseconds fit an [int64]. *)
Definition max_lifetime : Z := 106751991167.

(** Zone offsets stay within a day of UTC. *)
Definition sane_location (loc : GoTime.Location) : Prop :=
  forall u, -86400 <= GoTime.offset (loc u) <= 86400.

(** The sweeper asked the file system to delete [name], right after reading
    the clock, as the last thing it did. *)
Definition deletion_requested (E : Env) (h : History) (name : string)
           (s' : State) : Prop :=
  hist s' = EvRemove name (os_Remove E (EvNow (time_Now E h) :: h) name)
              :: EvNow (time_Now E h) :: h.

(** The rebuilt session of [RotateFile]. *)
Definition reopened (f : handle) (p : Portal) : Portal :=
  set_writer (FileSink f :: (if ConsolePortal p then [Stdout] else []))
             (set_file (Some f) p).

Definition live_path (E : Env) (p : Portal) : string :=
  filepath_Join E (Dir p) (filename p).

Definition create_append (flag : Z) : bool :=
  negb (Z.land flag O_CREATE =? 0) && negb (Z.land flag O_APPEND =? 0).

(* ================================================================== *)
(** ** Concrete worlds, for running the methods *)

(** UTC+8 throughout: the rule of Asia/Shanghai since September 1991. *)
Definition east8 : GoTime.Location :=
  fun _ => GoTime.mkZone 28800 (- 2 ^ 62) (2 ^ 62).

(** [filepath.Join] on two clean, non-empty elements. *)
Definition join_slash (dir name : string) : string := dir ++ "/" ++ name.

(** How many [HEAD] requests were sent. *)
Fixpoint heads (h : History) : nat :=
  match h with
  | [] => O
  | EvDo req _ :: rest =>
      if String.eqb (Method req) "HEAD" then S (heads rest) else heads rest
  | _ :: rest => heads rest
  end.

Record Script := mkScript {
  probes : list (result Response);  (* the answers to the successive HEADs *)
  get_status : Z;                   (* the status of every GET *)
  copy_err : option error;
  rename_err : option error;
  remove_err : option error;
  clock : GoTime.Time
}.

Definition scripted (sc : Script) : Env :=
  mkEnv
    (fun _ _ _ => None)
    (fun h req =>
       if String.eqb (Method req) "HEAD" then nth (heads h) (probes sc) (Err "EOF")
       else Ok (mkResponse (get_status sc) (-1)))
    (fun _ _ => copy_err sc)
    (fun _ _ => None)
    (fun _ _ => None)
    (fun _ _ _ => rename_err sc)
    (fun h _ _ _ => Ok (List.length h))
    (fun _ _ _ => None)
    (fun _ _ => remove_err sc)
    (fun _ => clock sc)
    join_slash
    east8.

(** 2026-11-01 14:04:05.123456789 in UTC+8. *)
Definition a_clock : GoTime.Time := GoTime.mkTime 1793513045 123456789.

Definition size (n : Z) : result Response := Ok (mkResponse StatusOK n).

Definition calm (probes : list (result Response)) : Env :=
  scripted (mkScript probes StatusPartialContent None None None a_clock).

Definition rename_fails (probes : list (result Response)) : Env :=
  scripted (mkScript probes StatusPartialContent None (Some "permission denied") None a_clock).

(** A console-only session on [access.log] with [Tail = 10], set up by the
    package's own constructor and initialisers. *)
Definition console_session : Portal :=
  self (snd (run (Init ;; SetupWriter (calm []) false false "" 3)
                 (New "http://host/logs/access.log" 2 10) [])).

(** A session mirroring [access.log] into [/var/mirror], three days of
    retention. *)
Definition file_session : Portal :=
  self (snd (run (Init ;; SetupWriter (calm []) false true "/var/mirror" 3)
                 (New "http://host/logs/access.log" 2 10) [])).

(** The same for a log whose name carries a hyphen. *)
Definition hyphen_session : Portal :=
  self (snd (run (Init ;; SetupWriter (calm []) false true "/var/mirror" 3)
                 (New "http://host/logs/my-app.log" 2 10) [])).

Definition old_archive : string := "access-2020-01-01T00-00-00.000.log".
Definition young_archive : string := "access-2026-10-31T00-00-00.000.log".
Definition old_hyphen_archive : string := "my-app-2020-01-01T00-00-00.000.log".

(** A mirror directory with a subdirectory that holds an old archive; the
    entries come sorted by name, as [os.ReadDir] returns them. *)
Definition nested_mirror : DirTree :=
  Directory "mirror"
    [ File young_archive;
      File "access.log";
      Directory "keep" [ File old_archive ] None ] None.

(** The last [w] decimal digits of [u], most significant first: the
    fixed-width fields of a timestamp. *)
Fixpoint digits_w (w : nat) (u : Z) : string :=
  match w with
  | O => EmptyString
  | S w' => digits_w w' (u / 10) ++ Str.of_char (Str.digit (u mod 10))
  end.

(** The shape [YYYY-MM-DDTHH-MM-SS.mmm] of a timestamp, on calendar fields. *)
Definition fixed_width_timestamp (c : GoTime.civil) : string :=
  digits_w 4 (GoTime.year c) ++ "-" ++ digits_w 2 (GoTime.month c) ++ "-"
    ++ digits_w 2 (GoTime.day c) ++ "T" ++ digits_w 2 (GoTime.hour c) ++ "-"
    ++ digits_w 2 (GoTime.minute c) ++ "-" ++ digits_w 2 (GoTime.second c)
    ++ "." ++ digits_w 3 (GoTime.nano c / 1000000).

(** The sentence of the specification on [Rotate()]: the call ends with a
    fresh file opened at the live path in create+append mode and the writer
    rebuilt around it. *)
Definition ends_reopened (E : Env) (p : Portal) (h : History) : Prop :=
  let out := RotateFile E (mkState p h) in
  exists f flag perm rest,
    hist (snd out) = EvOpenFile (live_path E p) flag perm (Ok f) :: rest
    /\ create_append flag = true
    /\ self (snd out) = reopened f p.

(** The path [RotateFile] renames the live file to, for a clock reading. *)
Definition archive_path (E : Env) (p : Portal) (now : GoTime.Time) : string :=
  filepath_Join E (Dir p)
    (archive_name (filename p) (GoTime.Format (location E) now)).

(** How many times the clock was read. *)
Fixpoint clock_reads (h : History) : nat :=
  match h with
  | [] => O
  | EvNow _ :: rest => S (clock_reads rest)
  | _ :: rest => clock_reads rest
  end.

(** An entry the sweeper examines: neither a directory nor the live file. *)
Definition candidate (p : Portal) (d : DirTree) : bool :=
  negb (IsDir d) && negb (String.eqb (Name d) (filename p)).

(** The verdict of the closure [match] for a clock reading. *)
Definition match_result (loc : GoTime.Location) (lifetime : Z)
           (now : GoTime.Time) (filename : string) : bool :=
  match Str.SplitN2 "-" filename with
  | [_; fn] =>
      if negb (Str.HasSuffix fn ".log") then false
      else
        match GoTime.ParseInLocation loc
                (Str.take (String.length fn - String.length ".log") fn) with
        | None => false
        | Some t =>
            negb (Int64.sub (GoTime.UnixMilli now) (GoTime.UnixMilli t)
                  <? Int64.mul (Int64.mul (Int64.mul (Int64.mul lifetime 24) 60) 60) 1000)
        end
  | _ => false
  end.

(** The sentence of the specification on the reach of [Clean()]: only the
    mirror directory itself is listed, and only its own entries are deleted. *)
Definition stays_at_top (p : Portal) (tree : DirTree) (new : History) : Prop :=
  (forall path, In path (listings new) -> path = Dir p)
  /\ (forall n, In n (removals new) -> In n (map Name (immediate tree))).

(** What a walk may do: it leaves the session alone, deletes only by the
    names of files of the tree other than the live filename, and -- when it
    runs to its end -- has listed every directory and examined every
    candidate of the tree. *)
Definition walk_spec (p : Portal) (out : option error * State) (h : History)
           (within : list DirTree) : Prop :=
  self (snd out) = p
  /\ exists new,
      hist (snd out) = (new ++ h)%list
      /\ (forall n, In n (removals new) ->
                    n <> filename p
                    /\ exists d, In d within /\ IsDir d = false /\ Name d = n)
      /\ (fst out = None ->
          List.length (listings new) = List.length (filter IsDir within)
          /\ clock_reads new = List.length (filter (candidate p) within)).

(** A check for [hyphenated_archive]: is there a hyphen, after an earlier
    hyphen, that is followed by a timestamp and [.log]?  [seen] tells whether
    a hyphen has been passed already. *)
Fixpoint hyphen_split (loc : GoTime.Location) (seen : bool) (s : string) : bool :=
  match s with
  | EmptyString => false
  | String c rest =>
      (Ascii.eqb c "-" && seen && Str.HasSuffix rest ".log"
       && match GoTime.ParseInLocation loc
                  (Str.take (String.length rest - String.length ".log") rest) with
          | Some _ => true
          | None => false
          end)
      || hyphen_split loc (seen || Ascii.eqb c "-") rest
  end.

(** A session whose retention is one day more than [max_lifetime]. *)
Definition long_session : Portal :=
  self (snd (run (Init ;; SetupWriter (calm []) false true "/var/mirror"
                                      (max_lifetime + 1))
                 (New "http://host/logs/access.log" 2 10) [])).

(* ================================================================== *)
(** ** The command: [func main], up to the start of the loop *)

(** The values of the command-line flags after [flag.Parse()]. *)
Record Flags := mkFlags {
  fileURL : string;          (* -u *)
  dir : string;              (* -d *)
  interval : Z;              (* -i *)
  tail : Z;                  (* -t *)
  lifetime : Z;              (* -l *)
  enableFile : bool;         (* -enablefile *)
  disableConsole : bool      (* -diableconsole *)
}.

Section Main.

Variable E : Env.

(** [fmt.Println(s)]. *)
Definition Println (s : string) : M unit := emit (EvPrint (s ++ nl)).

(** [main] from the checks of the flags to the point where it installs the
    finalizer and starts the loop: [true] when that point is reached, [false]
    when [main] has printed a message and returned.  (The signal channel, the
    goroutine running [Start] and the deferred [Finalize] come after it.) *)
Definition main_until_start (fl : Flags) : M bool :=
  if String.eqb (fileURL fl) "" then
    Println "Please provide log file URL." ;; ret false
  else if interval fl <=? 0 then
    Println "Please provide non-negative integer for interval option." ;; ret false
  else if tail fl <? 0 then
    Println "Please provide positive integer for tail option." ;; ret false
  else if negb (enableFile fl) && disableConsole fl then
    Println "Please provide either --enablefile or enable console output." ;; ret false
  else if enableFile fl && String.eqb (dir fl) "" then
    Println "Please provide file dir path." ;; ret false
  else
    modify (fun _ => New (fileURL fl) (interval fl) (tail fl)) ;;
    err <- Init ;;
    match err with
    | Some e => Printf ("Failed to initialize portal: " ++ e ++ "." ++ nl) ;; ret false
    | None =>
        err <- SetupWriter E (disableConsole fl) (enableFile fl) (dir fl) (lifetime fl) ;;
        match err with
        | Some e => Printf ("Failed to setup writer: " ++ e ++ "." ++ nl) ;; ret false
        | None => ret true
        end
    end.

End Main.

(* ================================================================== *)
(** ** More observations on histories and sessions *)

(** The responses received from the server. *)
Fixpoint responses (h : History) : nat :=
  match h with
  | [] => O
  | EvDo _ (Ok _) :: rest => S (responses rest)
  | _ :: rest => responses rest
  end.

(** The response bodies closed. *)
Fixpoint closes (h : History) : nat :=
  match h with
  | [] => O
  | EvBodyClose :: rest => S (closes rest)
  | _ :: rest => closes rest
  end.

(** The requests handed to the HTTP client, most recent first. *)
Fixpoint requests (h : History) : list Request :=
  match h with
  | [] => []
  | EvDo req _ :: rest => req :: requests rest
  | _ :: rest => requests rest
  end.

(** The calls that change the file system, most recent first. *)
Fixpoint fs_changes (h : History) : list Event :=
  match h with
  | [] => []
  | (EvRename _ _ _ as e) :: rest => e :: fs_changes rest
  | (EvOpenFile _ _ _ _ as e) :: rest => e :: fs_changes rest
  | (EvMkdirAll _ _ _ as e) :: rest => e :: fs_changes rest
  | (EvRemove _ _ as e) :: rest => e :: fs_changes rest
  | (EvSync _ _ as e) :: rest => e :: fs_changes rest
  | (EvClose _ _ as e) :: rest => e :: fs_changes rest
  | _ :: rest => fs_changes rest
  end.

(** The sinks of the session agree with its flags and its file handle: the
    console is a sink exactly when [ConsolePortal] is set, and when
    [FilePortal] is set the only file among the sinks is the current handle. *)
Definition sinks_agree (p : Portal) : Prop :=
  (In Stdout (writer p) <-> ConsolePortal p = true)
  /\ (FilePortal p = true ->
      exists f, file p = Some f
                /\ forall g, In (FileSink g) (writer p) <-> g = f)
  /\ (FilePortal p = false -> forall g, ~ In (FileSink g) (writer p)).

(** Two sessions with the same configuration: everything but the offset,
    the file handle and the writer. *)
Definition same_config (p q : Portal) : Prop :=
  URL p = URL q /\ Tail p = Tail q /\ Interval p = Interval q
  /\ Dir p = Dir q /\ Lifetime p = Lifetime q
  /\ ConsolePortal p = ConsolePortal q /\ FilePortal p = FilePortal q
  /\ filename p = filename q.

(** The last field of a string cut at a separator. *)
Definition last_field (sep : ascii) (s : string) : string :=
  nth (List.length (Str.Split sep s) - 1) (Str.Split sep s) "".

(** A location with one zone for all time. *)
Definition fixed_zone (off : Z) : GoTime.Location :=
  fun _ => GoTime.mkZone off (- 2 ^ 62) (2 ^ 62).

(** An instant cut to the millisecond. *)
Definition truncate_ms (t : GoTime.Time) : GoTime.Time :=
  GoTime.mkTime (GoTime.unixSec t) (GoTime.nsec t / 1000000 * 1000000).

(** A walk that is cut short by a failed deletion: the failed call is the
    last event and its error is what comes back. *)
Definition stops_at_failure (out : option error * State) (new : History) : Prop :=
  (fst out = None -> forall n e, ~ In (EvRemove n (Some e)) new)
  /\ (forall n e, In (EvRemove n (Some e)) new ->
                  exists rest, new = EvRemove n (Some e) :: rest
                               /\ fst out = Some e
                               /\ forall n' e', ~ In (EvRemove n' (Some e')) rest).

(** The sweeper touches the world only by listing directories, reading the
    clock and removing files. *)
Definition sweeper_event (e : Event) : bool :=
  match e with
  | EvReadDir _ _ | EvNow _ | EvRemove _ _ => true
  | _ => false
  end.

(** What every method keeps from one state of the session to the next: the
    configuration, the agreement of the sinks and a non-negative offset. *)
Definition evolves (p q : Portal) : Prop :=
  same_config p q
  /\ (sinks_agree p -> sinks_agree q)
  /\ (0 <= offset p -> 0 <= offset q).

(** A check for [sinks_agree]. *)
Definition is_stdout (s : Sink) : bool :=
  match s with Stdout => true | FileSink _ => false end.

Definition is_file_sink (f : handle) (s : Sink) : bool :=
  match s with Stdout => false | FileSink g => Nat.eqb g f end.

Definition sinks_agreeb (p : Portal) : bool :=
  Bool.eqb (existsb is_stdout (writer p)) (ConsolePortal p)
  && if FilePortal p then
       match file p with
       | Some f => existsb (is_file_sink f) (writer p)
                   && forallb (fun s => is_stdout s || is_file_sink f s) (writer p)
       | None => false
       end
     else forallb is_stdout (writer p).

(** What a walk of the sweeper may do to the world, and how it ends when a
    deletion fails. *)
Definition walk_stops (out : option error * State) (h : History) : Prop :=
  exists new,
    hist (snd out) = (new ++ h)%list
    /\ forallb sweeper_event new = true
    /\ stops_at_failure out new.

(** The error [RotateFile] returns for a step of its own that failed: the
    error of the step behind the words naming the step. *)
Definition rotation_error (ev : Event) : option error :=
  match ev with
  | EvSync _ (Some e) => Some ("sync file: " ++ e)
  | EvClose _ (Some e) => Some ("close file: " ++ e)
  | EvRename _ _ (Some e) => Some ("rename file: " ++ e)
  | EvOpenFile _ _ _ (Err e) => Some ("open new file: " ++ e)
  | _ => None
  end.

(** The clock readings, most recent first. *)
Fixpoint clock_values (h : History) : list GoTime.Time :=
  match h with
  | [] => []
  | EvNow t :: rest => t :: clock_values rest
  | _ :: rest => clock_values rest
  end.

(** The path [filepath.WalkDir] gives to every directory of an observed
    tree whose root has the path [path], in walk order. *)
Fixpoint dir_paths (join : string -> string -> string) (path : string)
         (d : DirTree) : list string :=
  match d with
  | File _ => []
  | Directory _ dirs _ =>
      path :: flat_map (fun d1 => dir_paths join (join path (Name d1)) d1) dirs
  end.

(** Of the entries examined, each with the clock reading of its examination,
    the names the closure [match] accepts. *)
Definition swept (loc : GoTime.Location) (lifetime : Z)
           (xs : list (string * GoTime.Time)) : list string :=
  map fst (filter (fun x => match_result loc lifetime (snd x) (fst x)) xs).

(** [a] is the beginning of [b]. *)
Definition begins {A : Type} (a b : list A) : Prop :=
  exists rest, b = (a ++ rest)%list.

(** What a walk does, call by call: it lists the directories in walk order
    and examines the candidates in walk order, each with a clock reading of
    its own, asking for the deletion of exactly those [match] accepts; a
    walk that an error ends has done a beginning of this, a walk that runs
    to its end all of it. *)
Definition walk_trace (E : Env) (p : Portal) (out : option error * State)
           (h : History) (dirs : list string) (cands : list DirTree) : Prop :=
  self (snd out) = p
  /\ exists new listed xs,
      hist (snd out) = (new ++ h)%list
      /\ begins listed dirs
      /\ begins (map fst xs) (map Name cands)
      /\ listings new = rev listed
      /\ clock_values new = rev (map snd xs)
      /\ removals new = rev (swept (location E) (Lifetime p) xs)
      /\ (fst out = None -> listed = dirs /\ map fst xs = map Name cands).

(* ================================================================== *)
(** * Lemmas and theorems *)

Unset Implicit Arguments.

(** ** Stepping through the monad *)

Ltac unfold_monad :=
  unfold run, bind, call, emit, ret, get, modify, Printf in *; simpl in *.

(** Split on the next answer of the world, or on the next test of the code. *)
Ltac branch :=
  match goal with
  | |- context [match ?x with _ => _ end] =>
      lazymatch x with
      | context [match _ with _ => _ end] => fail
      | _ => destruct x eqn:?; simpl
      end
  end.

Ltac branches := repeat branch.

(** ** What the HTTP methods leave alone *)

Lemma LogSize_frame (E : Env) (s : State) :
  self (snd (LogSize E s)) = self s
  /\ rotations (hist (snd (LogSize E s))) = rotations (hist s).
Proof.
  unfold LogSize. unfold_monad. branches; auto.
Qed.

Lemma FetchIncrContent_frame (E : Env) (a b : Z) (s : State) :
  self (snd (FetchIncrContent E a b s)) = self s
  /\ rotations (hist (snd (FetchIncrContent E a b s))) = rotations (hist s).
Proof.
  unfold FetchIncrContent. unfold_monad. branches; auto.
Qed.

Lemma RotateFile_frame (E : Env) (s : State) :
  offset (self (snd (RotateFile E s))) = offset (self s)
  /\ rotations (hist (snd (RotateFile E s))) = S (rotations (hist s)).
Proof.
  unfold RotateFile. unfold_monad. branches; auto.
Qed.

(** One tick, split by the answer of the probe and the comparison. *)
Lemma tick_cases (E : Env) (p : Portal) (h : History) :
  let probe := fst (LogSize E (mkState p h)) in
  let s' := snd (tick E (mkState p h)) in
  match snd probe with
  | Some _ => self s' = p /\ rotations (hist s') = rotations h
  | None =>
      if fst probe >? offset p then
        match fst (FetchIncrContent E (offset p) (fst probe)
                                    (snd (LogSize E (mkState p h)))) with
        | Some _ => self s' = p /\ rotations (hist s') = rotations h
        | None => self s' = set_offset (fst probe) p
                  /\ rotations (hist s') = rotations h
        end
      else if fst probe <? offset p then
        offset (self s') = 0 /\ rotations (hist s') = S (rotations h)
      else self s' = p /\ rotations (hist s') = rotations h
  end.
Proof.
  intros probe s'. subst probe.
  assert (Hs : s' = snd (tick E (mkState p h))) by reflexivity.
  clearbody s'. unfold tick in Hs. unfold bind at 1 in Hs.
  pose proof (LogSize_frame E (mkState p h)) as [Hself Hrot].
  destruct (LogSize E (mkState p h)) as [[S_ getErr] s1]. simpl in *.
  destruct getErr as [e|].
  - unfold_monad. subst s'. simpl. auto.
  - unfold bind at 1 in Hs. unfold get at 1 in Hs. rewrite Hself in Hs.
    destruct (S_ >? offset p) eqn:Hgt.
    + unfold bind at 1 in Hs.
      pose proof (FetchIncrContent_frame E (offset p) S_ s1) as [Hs2 Hr2].
      destruct (FetchIncrContent E (offset p) S_ s1) as [err s2]. simpl in *.
      destruct err; unfold_monad; subst s'; simpl; rewrite Hs2, Hr2, Hself; auto.
    + destruct (S_ <? offset p) eqn:Hlt.
      * unfold bind at 1 in Hs.
        pose proof (RotateFile_frame E s1) as [Ho Hr].
        destruct (RotateFile E s1) as [err s2]. simpl in *.
        destruct err; unfold_monad; subst s'; simpl; rewrite Hr, Hrot; auto.
      * unfold_monad. subst s'. auto.
Qed.

Lemma tick_rotations_le (E : Env) (s : State) :
  (rotations (hist s) <= rotations (hist (snd (tick E s))))%nat.
Proof.
  destruct s as [p h].
  pose proof (tick_cases E p h) as H. cbv zeta in H. simpl.
  destruct (snd (fst (LogSize E (mkState p h)))).
  - destruct H as [_ ->]. lia.
  - destruct (fst (fst (LogSize E (mkState p h))) >? offset p).
    + destruct (fst (FetchIncrContent E _ _ _)); destruct H as [_ ->]; lia.
    + destruct (fst (fst (LogSize E (mkState p h))) <? offset p);
        destruct H as [_ ->]; lia.
Qed.

Lemma ticks_rotations_le (E : Env) (n : nat) (s : State) :
  (rotations (hist s) <= rotations (hist (snd (ticks E n s))))%nat.
Proof.
  revert s. induction n as [|n IH]; intros s; simpl.
  - lia.
  - unfold bind. pose proof (tick_rotations_le E s).
    destruct (tick E s) as [[] s1]. simpl in *.
    specialize (IH s1). lia.
Qed.

Lemma tick_offset_le (E : Env) (p : Portal) (h : History) :
  rotations (hist (snd (tick E (mkState p h)))) = rotations h ->
  offset p <= offset (self (snd (tick E (mkState p h)))).
Proof.
  pose proof (tick_cases E p h) as H. cbv zeta in H. intros Hrot.
  destruct (snd (fst (LogSize E (mkState p h)))).
  - destruct H as [-> _]. lia.
  - destruct (fst (fst (LogSize E (mkState p h))) >? offset p) eqn:Hgt.
    + destruct (fst (FetchIncrContent E _ _ _)); destruct H as [-> _]; simpl; lia.
    + destruct (fst (fst (LogSize E (mkState p h))) <? offset p).
      * destruct H as [_ H]. lia.
      * destruct H as [-> _]. lia.
Qed.

Lemma ticks_offset_le (E : Env) (n : nat) :
  forall (p : Portal) (h : History),
    rotations (hist (snd (ticks E n (mkState p h)))) = rotations h ->
    offset p <= offset (self (snd (ticks E n (mkState p h)))).
Proof.
  induction n as [|n IH]; intros p h; simpl.
  - lia.
  - unfold bind.
    pose proof (tick_rotations_le E (mkState p h)) as H1.
    pose proof (tick_offset_le E p h) as H2.
    destruct (tick E (mkState p h)) as [[] [p1 h1]]. simpl in *.
    pose proof (ticks_rotations_le E n (mkState p1 h1)) as H3. simpl in H3.
    intros Hrot. specialize (IH p1 h1).
    assert (rotations h1 = rotations h) by lia.
    specialize (H2 ltac:(lia)). specialize (IH ltac:(lia)). lia.
Qed.

(* ================================================================== *)
(** ** The poll loop *)

(** C2.  On a steady tick the offset stays, or grows to a larger probed
    size, or -- exactly when the probe succeeds with a size below the offset
    -- [RotateFile] is entered once and the offset is then zero, whatever
    [RotateFile] returned.  Hence over any number of ticks without a
    rotation the offset never decreases. *)
Theorem C2_offset_within_generation :
  forall (E : Env) (p : Portal) (h : History),
    let probe := fst (LogSize E (mkState p h)) in
    let s' := snd (tick E (mkState p h)) in
    match snd probe with
    | Some _ =>
        rotations (hist s') = rotations h /\ offset (self s') = offset p
    | None =>
        if fst probe <? offset p then
          rotations (hist s') = S (rotations h) /\ offset (self s') = 0
        else
          rotations (hist s') = rotations h
          /\ (offset (self s') = offset p
              \/ (offset p < fst probe /\ offset (self s') = fst probe))
    end
    /\ forall n : nat,
        rotations (hist (snd (ticks E n (mkState p h)))) = rotations h ->
        offset p <= offset (self (snd (ticks E n (mkState p h)))).
Proof.
  intros E p h probe s'. split.
  - pose proof (tick_cases E p h) as H. cbv zeta in H.
    subst probe s'.
    destruct (snd (fst (LogSize E (mkState p h)))).
    + destruct H as [-> ->]. auto.
    + destruct (fst (fst (LogSize E (mkState p h))) >? offset p) eqn:Hgt.
      * assert ((fst (fst (LogSize E (mkState p h))) <? offset p) = false) as -> by lia.
        destruct (fst (FetchIncrContent E _ _ _)); destruct H as [-> ->];
          simpl; split; auto. right. split; [lia | reflexivity].
      * destruct (fst (fst (LogSize E (mkState p h))) <? offset p).
        -- destruct H as [-> ->]. auto.
        -- destruct H as [-> ->]. auto.
  - intros n. apply ticks_offset_le.
Qed.

Lemma C2_offset_within_generation_witness :
  rotations (hist (snd (ticks (calm [size 50; size 50; size 80]) 3
                              (mkState console_session [])))) = rotations []
  /\ offset console_session
     <= offset (self (snd (ticks (calm [size 50; size 50; size 80]) 3
                                 (mkState console_session [])))).
Proof.
  split.
  - reflexivity.
  - apply (proj2 (C2_offset_within_generation
                    (calm [size 50; size 50; size 80]) console_session []) 3%nat).
    reflexivity.
Defined.

(** C6.  A tick whose probe fails, or whose fetch of [offset, S) fails,
    leaves the offset (indeed the whole session) as it was and enters no
    rotation. *)
Theorem C6_failed_tick_keeps_offset :
  forall (E : Env) (p : Portal) (h : History),
    let probed := LogSize E (mkState p h) in
    let S_ := fst (fst probed) in
    (snd (fst probed) <> None
     \/ (snd (fst probed) = None /\ S_ > offset p
         /\ fst (FetchIncrContent E (offset p) S_ (snd probed)) <> None)) ->
    let s' := snd (tick E (mkState p h)) in
    offset (self s') = offset p
    /\ self s' = p
    /\ rotations (hist s') = rotations h.
Proof.
  intros E p h probed S_ Hfail s'.
  pose proof (tick_cases E p h) as H. cbv zeta in H.
  subst probed S_ s'.
  destruct (snd (fst (LogSize E (mkState p h)))).
  - destruct H as [-> ->]. auto.
  - destruct Hfail as [Hf | (_ & Hgt & Hf)]; [congruence|].
    assert ((fst (fst (LogSize E (mkState p h))) >? offset p) = true) as Hb by lia.
    rewrite Hb in H.
    destruct (fst (FetchIncrContent E _ _ _)); [|congruence].
    destruct H as [-> ->]. auto.
Qed.

(** A probe that is refused, and a fetch that is answered 200 instead of 206. *)
Lemma C6_failed_tick_keeps_offset_witness :
  (offset (self (snd (tick (calm [Err "connection refused"])
                           (mkState (set_offset 70 console_session) [])))) = 70
   /\ rotations (hist (snd (tick (calm [Err "connection refused"])
                                 (mkState (set_offset 70 console_session) [])))) = O)
  /\ offset (self (snd (tick (scripted (mkScript [size 90] StatusOK None None None a_clock))
                             (mkState (set_offset 70 console_session) [])))) = 70.
Proof.
  split.
  - pose proof (C6_failed_tick_keeps_offset
                  (calm [Err "connection refused"]) (set_offset 70 console_session) []) as H.
    cbv zeta in H.
    destruct H as (H1 & _ & H3).
    + left. vm_compute. discriminate.
    + split; [exact H1 | exact H3].
  - apply (C6_failed_tick_keeps_offset
             (scripted (mkScript [size 90] StatusOK None None None a_clock))
             (set_offset 70 console_session) []).
    right. vm_compute. repeat split; discriminate.
Defined.

(** C10.  [LogSize] hands back the declared content length of a 200
    response as it is: a response without a length (-1 in [net/http]) gives
    -1 and no error, and a tick that probes -1 while the offset is not
    negative enters [RotateFile] and resets the offset. *)
Theorem C10_unknown_length_rotates :
  forall (E : Env) (p : Portal) (h : History) (resp : Response),
    let req := mkRequest "HEAD" (URL p) [] in
    http_NewRequest E h "HEAD" (URL p) = None ->
    client_Do E (EvNewRequest "HEAD" (URL p) None :: h) req = Ok resp ->
    StatusCode resp = StatusOK ->
    fst (LogSize E (mkState p h)) = (ContentLength resp, None)
    /\ (ContentLength resp = -1 ->
        0 <= offset p ->
        let s' := snd (tick E (mkState p h)) in
        rotations (hist s') = S (rotations h) /\ offset (self s') = 0).
Proof.
  intros E p h resp req Hreq Hdo Hst.
  assert (HL : fst (LogSize E (mkState p h)) = (ContentLength resp, None)).
  { unfold LogSize. unfold_monad. rewrite Hreq. simpl.
    fold req. rewrite Hdo. simpl. rewrite Hst. reflexivity. }
  split; [exact HL|].
  intros Hlen Hoff s'.
  pose proof (tick_cases E p h) as H. cbv zeta in H. subst s'.
  rewrite HL in H. simpl in H. rewrite Hlen in H.
  assert ((-1 >? offset p) = false) as Hgt by lia.
  assert ((-1 <? offset p) = true) as Hlt by lia.
  rewrite Hgt, Hlt in H. destruct H as [-> ->]. auto.
Qed.

Lemma C10_unknown_length_rotates_witness :
  fst (LogSize (calm [size (-1)]) (mkState (set_offset 70 console_session) []))
  = (-1, None)
  /\ rotations (hist (snd (tick (calm [size (-1)])
                                (mkState (set_offset 70 console_session) [])))) = 1%nat
  /\ offset (self (snd (tick (calm [size (-1)])
                             (mkState (set_offset 70 console_session) [])))) = 0.
Proof.
  pose proof (C10_unknown_length_rotates
                (calm [size (-1)]) (set_offset 70 console_session) []
                (mkResponse StatusOK (-1))) as H.
  cbv zeta in H.
  destruct H as [H1 H2]; [reflexivity | reflexivity | reflexivity |].
  split; [exact H1|].
  apply H2; [reflexivity | vm_compute; discriminate].
Defined.

(** ** The initial fetch *)

(** Everything [Start] does before its loop leaves the session as it was:
    the size it obtains lives in a local variable only. *)
Lemma Start_before_loop_keeps_session (E : Env) (p : Portal) (h : History) :
  self (snd (Start_before_loop E (mkState p h))) = p.
Proof.
  unfold Start_before_loop, initialFetch. unfold bind at 1. unfold get at 1.
  unfold bind at 1. unfold Printf, emit at 1. unfold bind at 1. unfold bind at 1.
  match goal with |- context [LogSize E ?s] =>
    pose proof (LogSize_frame E s) as [Hs _];
    destruct (LogSize E s) as [[S_ getErr] s1] end.
  simpl in Hs. destruct getErr as [e|].
  - unfold_monad. exact Hs.
  - unfold bind at 1. unfold get at 1.
    destruct (S_ =? 0); [unfold_monad; exact Hs|].
    destruct (S_ <? Tail (self s1)); [unfold_monad; exact Hs|].
    unfold bind at 1.
    match goal with |- context [FetchIncrContent E ?a ?b ?s] =>
      pose proof (FetchIncrContent_frame E a b s) as [Hf _];
      destruct (FetchIncrContent E a b s) as [err s2] end.
    simpl in Hf. destruct err; unfold_monad; congruence.
Qed.

(** C1.  [Tail = 10] and a remote file of 100 bytes: the initial fetch asks
    for bytes 90 to 99 and obtains the size 100 in the local variable
    [currSize], but the session's offset is still 0 when the loop starts, and
    the first tick asks for bytes 0 to 99. *)
Theorem C1_initial_fetch_offset_not_stored :
  let E := calm [size 100; size 100] in
  let url := "http://host/logs/access.log" in
  let before := Start_before_loop E (mkState console_session []) in
  let after := tick E (snd before) in
  Tail console_session = 10
  /\ fst before = 100
  /\ In (EvDo (mkRequest "GET" url [("Range", "bytes=90-99")])
              (Ok (mkResponse StatusPartialContent (-1))))
        (hist (snd before))
  /\ offset (self (snd before)) = 0
  /\ In (EvDo (mkRequest "GET" url [("Range", "bytes=0-99")])
              (Ok (mkResponse StatusPartialContent (-1))))
        (hist (snd after)).
Proof.
  vm_compute.
  repeat split; try reflexivity; repeat (try (left; reflexivity); right).
Qed.

(** ** The ranged read *)

(** Go's [end-1] is the integer [end_ - 1] for every [int64] but the least. *)
Lemma range_header_exact (start end_ : Z) :
  Int64.min_int < end_ <= Int64.max_int ->
  range_header start end_
  = "bytes=" ++ Str.fmt_d start ++ "-" ++ Str.fmt_d (end_ - 1).
Proof.
  intros H. unfold range_header, Int64.sub.
  unfold Int64.wrap, Int64.modulus, Int64.min_int, Int64.max_int in *.
  rewrite Z.mod_small by lia. do 3 f_equal. f_equal. lia.
Qed.

(** Name the events a run added in front of the history it started from. *)
Ltac new_events :=
  lazymatch goal with
  | |- exists new, ?l = (new ++ ?h)%list /\ _ =>
      let rec strip l :=
        lazymatch l with
        | h => constr:(@nil Event)
        | ?x :: ?t => let r := strip t in constr:((x :: r)%list)
        end in
      let n := strip l in
      exists n; split; [reflexivity|]
  end.



(** ** Rotation *)




(** ** Byte strings *)

Lemma str_app_assoc (a b c : string) : (a ++ b) ++ c = a ++ (b ++ c).
Proof. induction a as [|x a IH]; simpl; [reflexivity | now rewrite IH]. Qed.

Lemma str_app_nil_r (a : string) : a ++ "" = a.
Proof. induction a as [|x a IH]; simpl; [reflexivity | now rewrite IH]. Qed.

Lemma str_app_length (a b : string) :
  String.length (a ++ b) = (String.length a + String.length b)%nat.
Proof. induction a as [|x a IH]; simpl; [reflexivity | now rewrite IH]. Qed.

Lemma take_app_exact (a b : string) :
  Str.take (String.length a) (a ++ b) = a.
Proof. induction a as [|x a IH]; simpl; [now destruct b | now rewrite IH]. Qed.

Lemma drop_app_exact (a b : string) :
  Str.drop (String.length a) (a ++ b) = b.
Proof. induction a as [|x a IH]; simpl; [reflexivity | exact IH]. Qed.

Lemma Split_not_nil (sep : ascii) (s : string) : Str.Split sep s <> [].
Proof.
  destruct s as [|c s]; simpl; [discriminate|].
  destruct (Ascii.eqb c sep); [discriminate|].
  destruct (Str.Split sep s); discriminate.
Qed.

Lemma Split_one (sep : ascii) (s b : string) :
  Str.Split sep s = [b] -> s = b /\ Str.contains sep b = false.
Proof.
  revert b. induction s as [|c s IH]; intros b H; simpl in H.
  - inversion H. auto.
  - destruct (Ascii.eqb c sep) eqn:Hc.
    + inversion H as [[H1 H2]]. now apply Split_not_nil in H2.
    + destruct (Str.Split sep s) as [|f fs] eqn:Hs.
      * now apply Split_not_nil in Hs.
      * inversion H; subst. destruct (IH f eq_refl) as [-> Hf].
        simpl. rewrite Hc. auto.
Qed.

Lemma Split_two (sep : ascii) (s a b : string) :
  Str.Split sep s = [a; b] ->
  s = a ++ String sep b
  /\ Str.contains sep a = false /\ Str.contains sep b = false.
Proof.
  revert a. induction s as [|c s IH]; intros a H; simpl in H.
  - discriminate.
  - destruct (Ascii.eqb c sep) eqn:Hc.
    + inversion H as [[H1 H2]]. apply Split_one in H2 as [-> Hb].
      apply Ascii.eqb_eq in Hc. subst c. auto.
    + destruct (Str.Split sep s) as [|f fs] eqn:Hs.
      * discriminate.
      * inversion H; subst. destruct (IH f eq_refl) as (-> & Hf & Hb).
        simpl. rewrite Hc. auto.
Qed.

Lemma Split_no_sep (sep : ascii) (s : string) :
  Str.contains sep s = false -> Str.Split sep s = [s].
Proof.
  induction s as [|c s IH]; simpl; intros H; [reflexivity|].
  apply orb_false_iff in H as [Hc Hs]. rewrite Hc, (IH Hs). reflexivity.
Qed.

Lemma Split_app_sep (sep : ascii) (a b : string) :
  Str.contains sep a = false ->
  Str.Split sep (a ++ String sep b) = a :: Str.Split sep b.
Proof.
  induction a as [|c a IH]; simpl; intros H.
  - now rewrite Ascii.eqb_refl.
  - apply orb_false_iff in H as [Hc Ha]. rewrite Hc, (IH Ha). reflexivity.
Qed.

(** The prefix of the archive name: the part before the dot when the live
    filename is two dot-free fields around one dot, the whole filename in
    every other case. *)
Lemma archive_prefix_cases (f : string) :
  (exists a b, f = a ++ "." ++ b
               /\ Str.contains "." a = false /\ Str.contains "." b = false
               /\ archive_prefix f = a)
  \/ ((forall a b, f = a ++ "." ++ b ->
                   Str.contains "." a = false -> Str.contains "." b = false ->
                   False)
      /\ archive_prefix f = f).
Proof.
  unfold archive_prefix.
  destruct (Str.Split "." f) as [|a [|b [|c rest]]] eqn:Hs; simpl.
  - now apply Split_not_nil in Hs.
  - right. split; [|reflexivity]. intros a' b' -> Ha Hb.
    rewrite (Split_app_sep "." a' b' Ha), (Split_no_sep "." b' Hb) in Hs.
    discriminate.
  - left. exists a, b. apply Split_two in Hs as (-> & Ha & Hb). auto.
  - right. split; [|reflexivity]. intros a' b' -> Ha Hb.
    rewrite (Split_app_sep "." a' b' Ha), (Split_no_sep "." b' Hb) in Hs.
    discriminate.
Qed.

(** ** Decimal digits *)

Lemma utoa_fuel_acc (f : nat) :
  forall (u : Z) (acc : string),
    Str.utoa_fuel f u acc = Str.utoa_fuel f u "" ++ acc.
Proof.
  induction f as [|f IH]; intros u acc; simpl; [reflexivity|].
  destruct (u <? 10); [reflexivity|].
  rewrite (IH (u / 10) (String _ acc)), (IH (u / 10) (String _ "")).
  now rewrite str_app_assoc.
Qed.

Lemma utoa_fuel_S (f : nat) (u : Z) (acc : string) :
  Str.utoa_fuel (S f) u acc
  = if u <? 10 then String (Str.digit (u mod 10)) acc
    else Str.utoa_fuel f (u / 10) (String (Str.digit (u mod 10)) acc).
Proof. reflexivity. Qed.

Lemma utoa_fuel_enough (f1 : nat) :
  forall (f2 : nat) (u : Z),
    0 <= u < 2 ^ Z.of_nat (S f1) -> 0 <= u < 2 ^ Z.of_nat (S f2) ->
    Str.utoa_fuel (S f1) u "" = Str.utoa_fuel (S f2) u "".
Proof.
  induction f1 as [|f1 IH]; intros f2 u H1 H2.
  - assert (u < 10) by (change (2 ^ Z.of_nat 1) with 2 in H1; lia).
    simpl. assert ((u <? 10) = true) as -> by lia. reflexivity.
  - rewrite (utoa_fuel_S (S f1)), (utoa_fuel_S f2).
    destruct (u <? 10) eqn:Hu; [reflexivity|].
    rewrite (utoa_fuel_acc (S f1)), (utoa_fuel_acc f2). f_equal.
    assert (Hp : forall n : nat, 2 ^ Z.of_nat (S n) = 2 * 2 ^ Z.of_nat n).
    { intros n. rewrite Nat2Z.inj_succ, Z.pow_succ_r by lia. reflexivity. }
    destruct f2 as [|f2].
    + change (2 ^ Z.of_nat 1) with 2 in H2. lia.
    + apply IH.
      * rewrite (Hp (S f1)) in H1. Z.div_mod_to_equations. lia.
      * rewrite (Hp (S f2)) in H2. Z.div_mod_to_equations. lia.
Qed.

Lemma utoa_small (u : Z) : 0 <= u < 10 -> Str.utoa u = Str.of_char (Str.digit u).
Proof.
  intros H. unfold Str.utoa. simpl.
  assert ((u <? 10) = true) as -> by lia.
  rewrite Z.mod_small by lia. reflexivity.
Qed.

Lemma utoa_step (u : Z) :
  10 <= u ->
  Str.utoa u = Str.utoa (u / 10) ++ Str.of_char (Str.digit (u mod 10)).
Proof.
  intros H. unfold Str.utoa.
  rewrite (utoa_fuel_S (Z.to_nat (Z.log2 u))).
  assert ((u <? 10) = false) as -> by lia.
  rewrite utoa_fuel_acc. f_equal.
  assert (Hlog : 0 < Z.log2 u) by (apply Z.log2_pos; lia).
  assert (Hu : 1 <= u / 10) by (Z.div_mod_to_equations; lia).
  destruct (Z.to_nat (Z.log2 u)) as [|k] eqn:Hk; [lia|].
  apply utoa_fuel_enough.
  - pose proof (Z.log2_spec u ltac:(lia)) as [_ Hs].
    replace (Z.of_nat (S k)) with (Z.log2 u) by lia.
    rewrite Z.pow_succ_r in Hs by lia. Z.div_mod_to_equations. lia.
  - pose proof (Z.log2_spec (u / 10) ltac:(lia)) as [_ Hs].
    pose proof (Z.log2_nonneg (u / 10)).
    rewrite Nat2Z.inj_succ, Z2Nat.id by lia. lia.
Qed.

Lemma digits_w_length (w : nat) (u : Z) : String.length (digits_w w u) = w.
Proof.
  revert u. induction w as [|w IH]; intros u; simpl; [reflexivity|].
  rewrite str_app_length, IH. simpl. lia.
Qed.

Lemma digits_w_zero (w : nat) : digits_w w 0 = Str.zeros w.
Proof.
  induction w as [|w IH]; simpl; [reflexivity|].
  change (0 / 10) with 0. rewrite IH. clear IH.
  induction w as [|w IH]; simpl; [reflexivity | now rewrite IH].
Qed.

Lemma utoa_length_pos (u : Z) : 0 <= u -> (1 <= String.length (Str.utoa u))%nat.
Proof.
  intros H. destruct (Z_lt_le_dec u 10).
  - rewrite utoa_small by lia. simpl. lia.
  - rewrite utoa_step by lia. rewrite str_app_length. simpl. lia.
Qed.

(** Padding the digits of a number below [10^w] to width [w] gives its
    [w] digits. *)
Lemma pad_digits (w : nat) :
  forall u : Z,
    0 <= u < 10 ^ Z.of_nat (S w) ->
    Str.zeros (S w - String.length (Str.utoa u)) ++ Str.utoa u = digits_w (S w) u.
Proof.
  induction w as [|w IH]; intros u H.
  - change (10 ^ Z.of_nat 1) with 10 in H.
    rewrite utoa_small by lia. simpl. rewrite Z.mod_small by lia. reflexivity.
  - destruct (Z_lt_le_dec u 10) as [Hs|Hb].
    + rewrite utoa_small by lia. cbn [digits_w].
      rewrite (Z.div_small u 10), (Z.mod_small u 10) by lia.
      change (digits_w w (0 / 10) ++ Str.of_char (Str.digit (0 mod 10)))
        with (digits_w (S w) 0).
      rewrite digits_w_zero. reflexivity.
    + rewrite utoa_step by lia.
      change (digits_w (S (S w)) u)
        with (digits_w (S w) (u / 10) ++ Str.of_char (Str.digit (u mod 10))).
      rewrite <- IH.
      * rewrite str_app_length, str_app_assoc. simpl String.length.
        pose proof (utoa_length_pos (u / 10) ltac:(Z.div_mod_to_equations; lia)).
        replace (S (S w) - (String.length (Str.utoa (u / 10)) + 1))%nat
          with (S w - String.length (Str.utoa (u / 10)))%nat by lia.
        reflexivity.
      * rewrite Nat2Z.inj_succ, Z.pow_succ_r in H by lia.
        Z.div_mod_to_equations. lia.
Qed.

Lemma appendInt_digits (w : nat) (x : Z) :
  0 <= x < 10 ^ Z.of_nat (S w) -> GoTime.appendInt x (S w) = digits_w (S w) x.
Proof.
  intros H. unfold GoTime.appendInt.
  assert ((x <? 0) = false) as -> by lia.
  rewrite Z.abs_eq by lia. simpl append at 1. now apply pad_digits.
Qed.

Lemma digits_w_split (a b : nat) :
  forall u : Z,
    digits_w (a + b) u = digits_w a (u / 10 ^ Z.of_nat b) ++ digits_w b u.
Proof.
  induction b as [|b IH]; intros u.
  - rewrite Nat.add_0_r. simpl. rewrite Z.div_1_r, str_app_nil_r. reflexivity.
  - rewrite Nat.add_succ_r. cbn [digits_w]. rewrite IH, str_app_assoc.
    rewrite Nat2Z.inj_succ, Z.pow_succ_r by lia.
    rewrite Z.div_div by lia. reflexivity.
Qed.

Lemma appendNano3_digits (ns : Z) :
  0 <= ns < 1000000000 ->
  GoTime.appendNano3 ns = "." ++ digits_w 3 (ns / 1000000).
Proof.
  intros H. unfold GoTime.appendNano3. f_equal.
  rewrite (appendInt_digits 8 ns) by (change (10 ^ Z.of_nat 9) with 1000000000; lia).
  change 9%nat with (3 + 6)%nat. rewrite digits_w_split.
  change (10 ^ Z.of_nat 6) with 1000000.
  rewrite <- (digits_w_length 3 (ns / 1000000)) at 1.
  apply take_app_exact.
Qed.

(** ** Timestamps *)

(** The calendar fields read off an instant are those of a real date and
    time of day. *)
Lemma In_fields (loc : GoTime.Location) (t : GoTime.Time) :
  let c := GoTime.In loc t in
  1 <= GoTime.month c <= 12 /\ 1 <= GoTime.day c <= 31
  /\ 0 <= GoTime.hour c <= 23 /\ 0 <= GoTime.minute c <= 59
  /\ 0 <= GoTime.second c <= 59 /\ GoTime.nano c = GoTime.nsec t.
Proof.
  unfold GoTime.In, GoTime.civil_from_days. cbv zeta.
  set (abs := GoTime.unixSec t + GoTime.offset (loc (GoTime.unixSec t))).
  set (days := abs / 86400). cbn [GoTime.month GoTime.day GoTime.hour
    GoTime.minute GoTime.second GoTime.nano].
  repeat split; try (Z.div_mod_to_equations; lia);
    destruct (_ <? 10) eqn:Hmp; Z.div_mod_to_equations; lia.
Qed.

(** For a four-digit year the formatted instant is the fixed-width
    timestamp of its calendar fields, 23 bytes long, with the milliseconds
    of the instant in the last three. *)
Lemma Format_fixed_width (loc : GoTime.Location) (t : GoTime.Time) :
  0 <= GoTime.year (GoTime.In loc t) <= 9999 ->
  0 <= GoTime.nsec t < 1000000000 ->
  GoTime.Format loc t = fixed_width_timestamp (GoTime.In loc t)
  /\ String.length (GoTime.Format loc t) = 23%nat.
Proof.
  intros Hy Hn.
  pose proof (In_fields loc t) as (Hmo & Hd & Hh & Hmi & Hs & Hns).
  cbv zeta in *.
  assert (Heq : GoTime.Format loc t = fixed_width_timestamp (GoTime.In loc t)).
  { unfold GoTime.Format, GoTime.FormatCivil, fixed_width_timestamp.
    rewrite (appendInt_digits 3) by (change (10 ^ Z.of_nat 4) with 10000; lia).
    rewrite !(appendInt_digits 1) by (change (10 ^ Z.of_nat 2) with 100; lia).
    rewrite appendNano3_digits by lia. reflexivity. }
  split; [exact Heq|]. rewrite Heq. unfold fixed_width_timestamp.
  repeat rewrite str_app_length. repeat rewrite digits_w_length. reflexivity.
Qed.

(** C8.  Whenever [RotateFile] renames, it renames the live path to
    [<Dir>/<prefix>-<T>.log], where [T] is the clock reading of this call
    formatted in the package's location -- for a four-digit year the
    fixed-width [YYYY-MM-DDTHH-MM-SS.mmm] -- and [prefix] is the part of the
    live filename before the dot when the filename is exactly two dot-free
    fields, the whole filename otherwise.  So [access.log] gives
    [access-<T>.log] and a filename without a dot gives [<filename>-<T>.log]. *)
Theorem C8_archive_name :
  forall (E : Env) (p : Portal) (h : History),
    let out := RotateFile E (mkState p h) in
    (exists new,
        hist (snd out) = (new ++ h)%list
        /\ forall a b r,
            In (EvRename a b r) new ->
            exists now,
              In (EvNow now) new
              /\ a = live_path E p
              /\ b = filepath_Join E (Dir p)
                       (archive_prefix (filename p) ++ "-"
                          ++ GoTime.Format (location E) now ++ ".log")
              /\ (0 <= GoTime.year (GoTime.In (location E) now) <= 9999 ->
                  0 <= GoTime.nsec now < 1000000000 ->
                  GoTime.Format (location E) now
                  = fixed_width_timestamp (GoTime.In (location E) now)
                  /\ String.length (GoTime.Format (location E) now) = 23%nat))
    /\ ((exists a b,
            filename p = a ++ "." ++ b
            /\ Str.contains "." a = false /\ Str.contains "." b = false
            /\ archive_prefix (filename p) = a)
        \/ ((forall a b,
                filename p = a ++ "." ++ b ->
                Str.contains "." a = false -> Str.contains "." b = false ->
                False)
            /\ archive_prefix (filename p) = filename p))
    /\ (forall T, archive_name "access.log" T = "access-" ++ T ++ ".log")
    /\ (forall f T,
           Str.contains "." f = false ->
           archive_name f T = f ++ "-" ++ T ++ ".log").
Proof.
  intros E p h out. subst out. split; [|split; [|split]].
  - unfold RotateFile, live_path, archive_name. unfold_monad.
    destruct (FilePortal p); simpl.
    2:{ new_events. simpl. intros a b r [H|[]]. discriminate. }
    destruct (file p) as [f0|]; simpl.
    2:{ new_events. simpl. intros a b r [H|[]]. discriminate. }
    destruct (file_Sync E (EvRotateFile :: h) f0); simpl.
    { new_events. simpl. intros a b r [H|[H|[]]]; discriminate. }
    match goal with |- context [file_Close E ?hh f0] =>
      destruct (file_Close E hh f0) end; simpl.
    { new_events. simpl. intros a b r [H|[H|[H|[]]]]; discriminate. }
    match goal with |- context [os_Rename E ?hh ?a ?b] =>
      destruct (os_Rename E hh a b) end; simpl.
    { new_events. simpl. intros a b r [H|[H|[H|[H|[H|[]]]]]]; try discriminate.
      inversion H; subst. eexists. split; [right; left; reflexivity|].
      split; [reflexivity|]. split; [reflexivity|]. apply Format_fixed_width. }
    match goal with |- context [os_OpenFile E ?hh ?a ?b ?c] =>
      destruct (os_OpenFile E hh a b c) as [f1|e4] end; simpl.
    + new_events. simpl.
      intros a b r [H|[H|[H|[H|[H|[H|[]]]]]]]; try discriminate.
      inversion H; subst. eexists. split; [right; right; left; reflexivity|].
      split; [reflexivity|]. split; [reflexivity|]. apply Format_fixed_width.
    + new_events. simpl.
      intros a b r [H|[H|[H|[H|[H|[H|[]]]]]]]; try discriminate.
      inversion H; subst. eexists. split; [right; right; left; reflexivity|].
      split; [reflexivity|]. split; [reflexivity|]. apply Format_fixed_width.
  - apply archive_prefix_cases.
  - intros T. reflexivity.
  - intros f T Hf. unfold archive_name, archive_prefix.
    rewrite (Split_no_sep "." f Hf). reflexivity.
Qed.

(** The rotation of the calm world: [access.log] at 14:04:05.123 on
    2026-11-01 in UTC+8. *)
Lemma C8_archive_name_witness :
  In (EvRename "/var/mirror/access.log"
               "/var/mirror/access-2026-11-01T14-04-05.123.log" None)
     (hist (snd (RotateFile (calm []) (mkState file_session []))))
  /\ GoTime.Format east8 a_clock = fixed_width_timestamp (GoTime.In east8 a_clock)
  /\ String.length (GoTime.Format east8 a_clock) = 23%nat
  /\ archive_name "syslog" "T" = "syslog-T.log".
Proof.
  destruct (C8_archive_name (calm []) file_session [])
    as ((new & Hh & Hren) & _ & _ & Hnodot).
  rewrite app_nil_r in Hh.
  assert (Hin : In (EvRename "/var/mirror/access.log"
               "/var/mirror/access-2026-11-01T14-04-05.123.log" None) new).
  { rewrite <- Hh. right. left. reflexivity. }
  split; [rewrite Hh; exact Hin|].
  destruct (Hren _ _ _ Hin) as (now & Hnow & _ & _ & Hfmt).
  assert (now = a_clock) as ->.
  { rewrite <- Hh in Hnow.
    destruct Hnow as [H|[H|[H|[H|[H|[H|[]]]]]]]; try discriminate.
    inversion H. reflexivity. }
  destruct Hfmt as [H1 H2]; [vm_compute; split; discriminate
                            | vm_compute; split; [discriminate | reflexivity] |].
  split; [exact H1|]. split; [exact H2|].
  apply (Hnodot "syslog" "T"). reflexivity.
Defined.

(** ** The sweeper *)

Lemma DirTree_ind (P : DirTree -> Prop) :
  (forall n, P (File n)) ->
  (forall n dirs e, Forall P dirs -> P (Directory n dirs e)) ->
  forall d, P d.
Proof.
  intros HF HD. fix IH 1. intros [n|n dirs e].
  - apply HF.
  - apply HD. induction dirs as [|d dirs IHd]; constructor; [apply IH | exact IHd].
Qed.

Lemma removals_app (a b : History) :
  removals (a ++ b)%list = (removals a ++ removals b)%list.
Proof.
  induction a as [|e a IH]; simpl; [reflexivity|].
  destruct e; simpl; now rewrite IH.
Qed.

Lemma listings_app (a b : History) :
  listings (a ++ b)%list = (listings a ++ listings b)%list.
Proof.
  induction a as [|e a IH]; simpl; [reflexivity|].
  destruct e; simpl; now rewrite IH.
Qed.

Lemma clock_reads_app (a b : History) :
  clock_reads (a ++ b)%list = (clock_reads a + clock_reads b)%nat.
Proof.
  induction a as [|e a IH]; simpl; [reflexivity|].
  destruct e; simpl; now rewrite IH.
Qed.

(** The closure [match] reads the clock once and changes nothing else. *)
Lemma match__eq (E : Env) (name : string) (p : Portal) (h : History) :
  match_ E name (mkState p h)
  = (match_result (location E) (Lifetime p) (time_Now E h) name,
     mkState p (EvNow (time_Now E h) :: h)).
Proof.
  unfold match_, match_result. unfold_monad.
  destruct (Str.SplitN2 "-" name) as [|a [|fn [|c rest]]]; try reflexivity.
  destruct (Str.HasSuffix fn ".log"); simpl; [|reflexivity].
  destruct (GoTime.ParseInLocation _ _); [|reflexivity].
  destruct (_ <? _); reflexivity.
Qed.

(** The callback on an entry, case by case. *)
Lemma visit_file (E : Env) (path name : string) (p : Portal) (h : History) :
  visit E path (Some (File name)) None (mkState p h)
  = if String.eqb name (filename p) then (None, mkState p h)
    else
      let now := time_Now E h in
      if match_result (location E) (Lifetime p) now name then
        (os_Remove E (EvNow now :: h) name,
         mkState p (EvRemove name (os_Remove E (EvNow now :: h) name)
                      :: EvNow now :: h))
      else (None, mkState p (EvNow now :: h)).
Proof.
  unfold visit. simpl. unfold bind at 1. unfold get at 1. simpl.
  destruct (String.eqb name (filename p)); [reflexivity|].
  unfold bind at 1. rewrite match__eq. cbv zeta.
  destruct (match_result _ _ _ _); simpl; [|reflexivity].
  unfold_monad. destruct (os_Remove E _ name); reflexivity.
Qed.

Lemma visit_dir (E : Env) (path n : string) (dirs : list DirTree)
      (e : option error) (err : option error) (s : State) :
  visit E path (Some (Directory n dirs e)) err s = (err, s).
Proof. unfold visit. destruct err; reflexivity. Qed.


Lemma visit_file_spec (E : Env) (p : Portal) (path name : string) (h : History) :
  walk_spec p (visit E path (Some (File name)) None (mkState p h)) h [File name].
Proof.
  rewrite visit_file. unfold walk_spec, candidate. simpl.
  destruct (String.eqb name (filename p)) eqn:Hn; simpl.
  - split; [reflexivity|]. exists []. simpl.
    split; [reflexivity|]. split; [intros n []|auto].
  - apply String.eqb_neq in Hn.
    destruct (match_result _ _ _ _); simpl.
    + split; [reflexivity|].
      exists [EvRemove name (os_Remove E (EvNow (time_Now E h) :: h) name);
              EvNow (time_Now E h)].
      simpl. split; [reflexivity|]. split; [|auto].
      intros n [<-|[]]. split; [exact Hn|].
      exists (File name). split; [now left|auto].
    + split; [reflexivity|]. exists [EvNow (time_Now E h)].
      simpl. split; [reflexivity|]. split; [intros n []|auto].
Qed.

Lemma range_dirs_spec (E : Env) (p : Portal) (dirs : list DirTree) :
  Forall (fun d => forall path h,
              walk_spec p (walkDir E (visit E) path d (mkState p h)) h (nodes d))
         dirs ->
  forall path h,
    walk_spec p (range_dirs E (walkDir E (visit E)) path dirs (mkState p h)) h
              (flat_map nodes dirs).
Proof.
  induction 1 as [|d1 rest Hd1 _ IH]; intros path h.
  - simpl. unfold ret, walk_spec. simpl. split; [reflexivity|].
    exists []. simpl. split; [reflexivity|]. split; [intros n []|auto].
  - cbn [range_dirs flat_map]. unfold bind at 1.
    specialize (Hd1 (filepath_Join E path (Name d1)) h).
    destruct (walkDir E (visit E) _ d1 (mkState p h)) as [err [p1 h1]].
    destruct Hd1 as (Hp1 & new1 & Hh1 & Hrem1 & Hcnt1). simpl in *. subst p1 h1.
    destruct err as [e|].
    + unfold ret, walk_spec. simpl. split; [reflexivity|].
      exists new1. split; [reflexivity|]. split; [|discriminate].
      intros n Hn. destruct (Hrem1 n Hn) as (Hne & d & Hd & Hdir & Hname).
      split; [exact Hne|]. exists d. split; [|auto]. apply in_or_app. now left.
    + specialize (IH path (new1 ++ h)%list).
      destruct (range_dirs E (walkDir E (visit E)) path rest _) as [err2 [p2 h2]].
      destruct IH as (Hp2 & new2 & Hh2 & Hrem2 & Hcnt2). simpl in *. subst p2 h2.
      unfold walk_spec. simpl. split; [reflexivity|].
      exists (new2 ++ new1)%list. split; [now rewrite app_assoc|]. split.
      * intros n Hn. rewrite removals_app in Hn.
        apply in_app_or in Hn as [Hn|Hn].
        -- destruct (Hrem2 n Hn) as (Hne & d & Hd & Hdir & Hname).
           split; [exact Hne|]. exists d. split; [|auto]. apply in_or_app. now right.
        -- destruct (Hrem1 n Hn) as (Hne & d & Hd & Hdir & Hname).
           split; [exact Hne|]. exists d. split; [|auto]. apply in_or_app. now left.
      * intros Hnone. destruct (Hcnt1 eq_refl) as [Hl1 Hc1].
        destruct (Hcnt2 Hnone) as [Hl2 Hc2].
        rewrite listings_app, clock_reads_app, !filter_app, !length_app.
        lia.
Qed.

Lemma walkDir_spec (E : Env) (p : Portal) (d : DirTree) :
  forall path h,
    walk_spec p (walkDir E (visit E) path d (mkState p h)) h (nodes d).
Proof.
  induction d as [name|name dirs readErr IH] using DirTree_ind; intros path h.
  - cbn [walkDir nodes]. unfold bind at 1.
    pose proof (visit_file_spec E p path name h) as H.
    destruct (visit E path (Some (File name)) None (mkState p h)) as [err s1].
    destruct err; exact H.
  - cbn [walkDir]. unfold bind at 1. rewrite visit_dir.
    unfold bind at 1. unfold emit at 1. cbn [self hist].
    unfold bind at 1.
    destruct readErr as [e|].
    + rewrite visit_dir. unfold ret, walk_spec. simpl. split; [reflexivity|].
      exists [EvReadDir path (Some e)]. simpl.
      split; [reflexivity|]. split; [intros n []|discriminate].
    + unfold ret at 1.
      pose proof (range_dirs_spec E p dirs IH path (EvReadDir path None :: h)) as H.
      destruct (range_dirs E (walkDir E (visit E)) path dirs _) as [err [p2 h2]].
      destruct H as (Hp2 & new2 & Hh2 & Hrem2 & Hcnt2). simpl in *. subst p2 h2.
      unfold walk_spec. simpl. split; [reflexivity|].
      exists (new2 ++ [EvReadDir path None])%list.
      split; [now rewrite <- app_assoc|]. split.
      * intros n Hn. rewrite removals_app in Hn. simpl in Hn.
        rewrite app_nil_r in Hn.
        destruct (Hrem2 n Hn) as (Hne & d & Hd & Hdir & Hname).
        split; [exact Hne|]. exists d. split; [now right|auto].
      * intros Hnone. destruct (Hcnt2 Hnone) as [Hl2 Hc2].
        rewrite listings_app, clock_reads_app, length_app. simpl. lia.
Qed.

(** [Clean] over an observed tree is the walk from the mirror directory. *)
Lemma Clean_spec (E : Env) (p : Portal) (h : History) (tree : DirTree) :
  walk_spec p (Clean E (Ok tree) (mkState p h)) h (nodes tree).
Proof.
  unfold Clean, WalkDir. unfold bind at 1. unfold get at 1. cbn [self].
  unfold bind at 1.
  pose proof (walkDir_spec E p tree (Dir p) h) as H.
  destruct (walkDir E (visit E) (Dir p) tree (mkState p h)) as [err s1].
  destruct err; exact H.
Qed.

(** ** The walk of the sweeper, call by call *)

Lemma clock_values_app (a b : History) :
  clock_values (a ++ b)%list = (clock_values a ++ clock_values b)%list.
Proof.
  induction a as [|e a IH]; simpl; [reflexivity|].
  destruct e; simpl; now rewrite IH.
Qed.

Lemma swept_app (loc : GoTime.Location) (lifetime : Z)
      (a b : list (string * GoTime.Time)) :
  swept loc lifetime (a ++ b) = (swept loc lifetime a ++ swept loc lifetime b)%list.
Proof. unfold swept. now rewrite filter_app, map_app. Qed.

Lemma begins_nil {A : Type} (b : list A) : begins [] b.
Proof. now exists b. Qed.

Lemma begins_refl {A : Type} (b : list A) : begins b b.
Proof. exists []. now rewrite app_nil_r. Qed.

Lemma begins_app_l {A : Type} (a b c : list A) :
  begins a b -> begins a (b ++ c)%list.
Proof. intros [r ->]. exists (r ++ c)%list. now rewrite app_assoc. Qed.

Lemma begins_app_r {A : Type} (a b c : list A) :
  begins a c -> begins (b ++ a)%list (b ++ c)%list.
Proof. intros [r ->]. exists r. now rewrite app_assoc. Qed.

Lemma visit_file_trace (E : Env) (p : Portal) (path name : string) (h : History) :
  walk_trace E p (visit E path (Some (File name)) None (mkState p h)) h
             [] (filter (candidate p) [File name]).
Proof.
  rewrite visit_file. unfold walk_trace, candidate. cbn [filter IsDir Name negb andb].
  destruct (String.eqb name (filename p)) eqn:Hn; cbn [negb map].
  - split; [reflexivity|]. exists [], [], []. simpl.
    split; [reflexivity|]. split; [apply begins_refl|]. split; [apply begins_refl|].
    auto.
  - cbv zeta.
    destruct (match_result (location E) (Lifetime p) (time_Now E h) name) eqn:Hm;
      cbn [fst snd self hist].
    + split; [reflexivity|].
      exists [EvRemove name (os_Remove E (EvNow (time_Now E h) :: h) name);
              EvNow (time_Now E h)], [], [(name, time_Now E h)].
      unfold swept. cbn [filter fst snd map rev app listings clock_values removals Name].
      rewrite Hm. cbn [map fst rev app].
      split; [reflexivity|]. split; [apply begins_refl|]. split; [apply begins_refl|].
      auto.
    + split; [reflexivity|].
      exists [EvNow (time_Now E h)], [], [(name, time_Now E h)].
      unfold swept. cbn [filter fst snd map rev app listings clock_values removals Name].
      rewrite Hm. cbn [map fst rev app].
      split; [reflexivity|]. split; [apply begins_refl|]. split; [apply begins_refl|].
      auto.
Qed.

Lemma range_dirs_trace (E : Env) (p : Portal) (dirs : list DirTree) :
  Forall (fun d => forall path h,
              walk_trace E p (walkDir E (visit E) path d (mkState p h)) h
                         (dir_paths (filepath_Join E) path d)
                         (filter (candidate p) (nodes d)))
         dirs ->
  forall path h,
    walk_trace E p (range_dirs E (walkDir E (visit E)) path dirs (mkState p h)) h
               (flat_map (fun d1 => dir_paths (filepath_Join E)
                                              (filepath_Join E path (Name d1)) d1) dirs)
               (filter (candidate p) (flat_map nodes dirs)).
Proof.
  induction 1 as [|d1 rest Hd1 _ IH]; intros path h.
  - simpl. unfold ret, walk_trace. simpl. split; [reflexivity|].
    exists [], [], []. simpl.
    split; [reflexivity|]. split; [apply begins_refl|]. split; [apply begins_refl|].
    auto.
  - cbn [range_dirs flat_map]. rewrite filter_app. unfold bind at 1.
    specialize (Hd1 (filepath_Join E path (Name d1)) h).
    destruct (walkDir E (visit E) _ d1 (mkState p h)) as [err [p1 h1]].
    destruct Hd1 as (Hp1 & new1 & listed1 & xs1 & Hh1 & Hb1 & Hc1 & Hl1 & Ht1 & Hr1 & Hall1).
    cbn [fst snd self hist] in *. subst p1 h1.
    destruct err as [e|].
    + unfold ret, walk_trace. cbn [fst snd self hist]. split; [reflexivity|].
      exists new1, listed1, xs1. split; [reflexivity|].
      split; [now apply begins_app_l|].
      split; [rewrite map_app; now apply begins_app_l|].
      split; [exact Hl1|]. split; [exact Ht1|]. split; [exact Hr1|]. discriminate.
    + destruct (Hall1 eq_refl) as [Hd1 Hx1].
      specialize (IH path (new1 ++ h)%list).
      destruct (range_dirs E (walkDir E (visit E)) path rest _) as [err2 [p2 h2]].
      destruct IH as (Hp2 & new2 & listed2 & xs2 & Hh2 & Hb2 & Hc2 & Hl2 & Ht2 & Hr2 & Hall2).
      cbn [fst snd self hist] in *. subst p2 h2.
      unfold walk_trace. cbn [fst snd self hist]. split; [reflexivity|].
      exists (new2 ++ new1)%list, (listed1 ++ listed2)%list, (xs1 ++ xs2)%list.
      split; [now rewrite app_assoc|].
      split; [rewrite Hd1; now apply begins_app_r|].
      split; [rewrite !map_app, Hx1; now apply begins_app_r|].
      split; [now rewrite listings_app, rev_app_distr, Hl1, Hl2|].
      split; [now rewrite clock_values_app, map_app, rev_app_distr, Ht1, Ht2|].
      split; [now rewrite removals_app, swept_app, rev_app_distr, Hr1, Hr2|].
      intros Hnone. destruct (Hall2 Hnone) as [Hd2 Hx2].
      split; [now rewrite Hd1, Hd2 | now rewrite !map_app, Hx1, Hx2].
Qed.

Lemma walkDir_trace (E : Env) (p : Portal) (d : DirTree) :
  forall path h,
    walk_trace E p (walkDir E (visit E) path d (mkState p h)) h
               (dir_paths (filepath_Join E) path d)
               (filter (candidate p) (nodes d)).
Proof.
  induction d as [name|name dirs readErr IH] using DirTree_ind; intros path h.
  - cbn [walkDir nodes dir_paths]. unfold bind at 1.
    pose proof (visit_file_trace E p path name h) as H.
    destruct (visit E path (Some (File name)) None (mkState p h)) as [err s1].
    destruct err; exact H.
  - cbn [walkDir nodes dir_paths]. unfold bind at 1. rewrite visit_dir.
    unfold bind at 1. unfold emit at 1. cbn [self hist].
    unfold bind at 1.
    replace (filter (candidate p) (Directory name dirs readErr :: flat_map nodes dirs))
      with (filter (candidate p) (flat_map nodes dirs)) by reflexivity.
    destruct readErr as [e|].
    + rewrite visit_dir. unfold ret, walk_trace. cbn [fst snd self hist].
      split; [reflexivity|].
      exists [EvReadDir path (Some e)], [path], []. simpl.
      split; [reflexivity|]. split; [eexists; reflexivity|].
      split; [apply begins_nil|]. split; [reflexivity|]. split; [reflexivity|].
      split; [reflexivity|]. discriminate.
    + unfold ret at 1.
      pose proof (range_dirs_trace E p dirs IH path (EvReadDir path None :: h)) as H.
      destruct (range_dirs E (walkDir E (visit E)) path dirs _) as [err [p2 h2]].
      destruct H as (Hp2 & new2 & listed2 & xs2 & Hh2 & Hb2 & Hc2 & Hl2 & Ht2 & Hr2 & Hall2).
      cbn [fst snd self hist] in *. subst p2 h2.
      unfold walk_trace. cbn [fst snd self hist]. split; [reflexivity|].
      exists (new2 ++ [EvReadDir path None])%list, (path :: listed2), xs2.
      split; [now rewrite <- app_assoc|].
      split; [exact (begins_app_r listed2 [path] _ Hb2)|].
      split; [exact Hc2|].
      split; [rewrite listings_app, Hl2; reflexivity|].
      split; [rewrite clock_values_app, Ht2; simpl; now rewrite app_nil_r|].
      split; [rewrite removals_app, Hr2; simpl; now rewrite app_nil_r|].
      intros Hnone. destruct (Hall2 Hnone) as [Hd2 Hx2].
      split; [now rewrite Hd2 | exact Hx2].
Qed.

(** [Clean] over an observed tree, call by call. *)
Lemma Clean_trace (E : Env) (p : Portal) (h : History) (tree : DirTree) :
  walk_trace E p (Clean E (Ok tree) (mkState p h)) h
             (dir_paths (filepath_Join E) (Dir p) tree)
             (filter (candidate p) (nodes tree)).
Proof.
  unfold Clean, WalkDir. unfold bind at 1. unfold get at 1. cbn [self].
  unfold bind at 1.
  pose proof (walkDir_trace E p tree (Dir p) h) as H.
  destruct (walkDir E (visit E) (Dir p) tree (mkState p h)) as [err s1].
  destruct err; exact H.
Qed.




(** C9.  Every deletion [Clean] asks for names a non-directory entry of the
    tree by its bare name; the path of the entry -- the name joined with the
    directory it was found in -- plays no part in the callback. *)
Theorem C9_removal_by_bare_name :
  forall (E : Env) (p : Portal) (h : History) (tree : DirTree),
    let out := Clean E (Ok tree) (mkState p h) in
    (exists new,
        hist (snd out) = (new ++ h)%list
        /\ forall n, In n (removals new) ->
                     exists d, In d (nodes tree) /\ IsDir d = false /\ n = Name d)
    /\ (forall path path' d err s, visit E path d err s = visit E path' d err s)
    /\ (forall path name,
           let s' := snd (visit E path (Some (File name)) None (mkState p h)) in
           removals (hist s') = removals h
           \/ removals (hist s') = name :: removals h).
Proof.
  intros E p h tree out. subst out. split; [|split].
  - destruct (Clean_spec E p h tree) as (_ & new & Hh & Hrem & _).
    exists new. split; [exact Hh|].
    intros n Hn. destruct (Hrem n Hn) as (_ & d & Hd & Hdir & Hname).
    exists d. auto.
  - intros path path' d err s. reflexivity.
  - intros path name. cbv zeta. rewrite visit_file.
    destruct (String.eqb name (filename p)); [now left|].
    cbv zeta. destruct (match_result _ _ _ _); simpl; [now right | now left].
Qed.

(** The old archive found at [/var/mirror/keep/access-2020-...] is deleted
    under its bare name. *)
Lemma C9_removal_by_bare_name_witness :
  exists new,
    hist (snd (Clean (calm []) (Ok nested_mirror) (mkState file_session []))) = new
    /\ removals new = [old_archive]
    /\ exists d, In d (nodes nested_mirror) /\ IsDir d = false /\ old_archive = Name d.
Proof.
  destruct (C9_removal_by_bare_name (calm []) file_session [] nested_mirror)
    as ((new & Hh & Hrem) & _ & _).
  rewrite app_nil_r in Hh. exists new. split; [exact Hh|].
  assert (Hr : removals new = [old_archive]) by (rewrite <- Hh; reflexivity).
  split; [exact Hr|].
  apply Hrem. rewrite Hr. now left.
Defined.

(** ** Machine integers *)

Lemma wrap_in_range (z : Z) : Int64.in_range (Int64.wrap z).
Proof.
  unfold Int64.in_range, Int64.wrap, Int64.min_int, Int64.max_int, Int64.modulus.
  pose proof (Z.mod_pos_bound (z + 2 ^ 63) (2 ^ 64) ltac:(lia)). lia.
Qed.

Lemma wrap_small (z : Z) : Int64.in_range z -> Int64.wrap z = z.
Proof.
  unfold Int64.in_range, Int64.wrap, Int64.min_int, Int64.max_int, Int64.modulus.
  intros H. rewrite Z.mod_small by lia. lia.
Qed.

(** ** Archive names as the sweeper reads them *)

Lemma SplitN2_no_sep (sep : ascii) (s : string) :
  Str.contains sep s = false -> Str.SplitN2 sep s = [s].
Proof.
  induction s as [|c s IH]; simpl; intros H; [reflexivity|].
  apply orb_false_iff in H as [Hc Hs]. rewrite Hc, (IH Hs). reflexivity.
Qed.

Lemma SplitN2_app_sep (sep : ascii) (a b : string) :
  Str.contains sep a = false ->
  Str.SplitN2 sep (a ++ String sep b) = [a; b].
Proof.
  induction a as [|c a IH]; simpl; intros H.
  - now rewrite Ascii.eqb_refl.
  - apply orb_false_iff in H as [Hc Ha]. rewrite Hc, (IH Ha). reflexivity.
Qed.

Lemma SplitN2_two (sep : ascii) (s a b : string) :
  Str.SplitN2 sep s = [a; b] ->
  s = a ++ String sep b /\ Str.contains sep a = false.
Proof.
  revert a. induction s as [|c s IH]; intros a H; simpl in H.
  - discriminate.
  - destruct (Ascii.eqb c sep) eqn:Hc.
    + inversion H; subst. apply Ascii.eqb_eq in Hc. subst c. auto.
    + destruct (Str.SplitN2 sep s) as [|f fs] eqn:Hs.
      * discriminate.
      * inversion H; subst. destruct (IH f eq_refl) as (-> & Hf).
        simpl. rewrite Hc. auto.
Qed.

Lemma take_drop (n : nat) (s : string) : Str.take n s ++ Str.drop n s = s.
Proof.
  revert s. induction n as [|n IH]; intros s; [reflexivity|].
  destruct s as [|c s]; simpl; [reflexivity | now rewrite IH].
Qed.

Lemma HasSuffix_split (s suffix : string) :
  Str.HasSuffix s suffix = true ->
  s = Str.take (String.length s - String.length suffix) s ++ suffix.
Proof.
  unfold Str.HasSuffix. intros H. apply andb_true_iff in H as [_ H].
  apply String.eqb_eq in H.
  pose proof (take_drop (String.length s - String.length suffix) s) as T.
  rewrite H in T. now symmetry.
Qed.

Lemma HasSuffix_app (a suffix : string) :
  Str.HasSuffix (a ++ suffix) suffix = true
  /\ Str.take (String.length (a ++ suffix) - String.length suffix) (a ++ suffix) = a.
Proof.
  unfold Str.HasSuffix. rewrite str_app_length.
  replace (String.length a + String.length suffix - String.length suffix)%nat
    with (String.length a) by lia.
  rewrite drop_app_exact, take_app_exact, String.eqb_refl.
  split; [|reflexivity]. apply andb_true_iff. split; [|reflexivity].
  apply Nat.leb_le. lia.
Qed.

(** ** Parsed timestamps are ordinary dates *)

Lemma isDigit_val (c : ascii) : GoTime.isDigit c = true -> 0 <= GoTime.digitVal c <= 9.
Proof.
  unfold GoTime.isDigit, GoTime.digitVal. intros H.
  apply andb_true_iff in H as [H1 H2].
  apply Nat.leb_le in H1. apply Nat.leb_le in H2. lia.
Qed.

Lemma getnum_bound (s : string) (fixed : bool) (n : Z) (r : string) :
  GoTime.getnum s fixed = Some (n, r) -> 0 <= n <= 99.
Proof.
  unfold GoTime.getnum. destruct s as [|c0 [|c1 rest]]; try discriminate.
  - destruct (GoTime.isDigit c0) eqn:H0; [|discriminate].
    apply isDigit_val in H0. destruct fixed; [discriminate|].
    intros H; inversion H; subst. lia.
  - destruct (GoTime.isDigit c0) eqn:H0; [|discriminate].
    apply isDigit_val in H0.
    destruct (GoTime.isDigit c1) eqn:H1.
    + apply isDigit_val in H1. intros H; inversion H; subst. lia.
    + destruct fixed; [discriminate|]. intros H; inversion H; subst. lia.
Qed.

Lemma leadingInt_bound (s : string) :
  forall x q r,
    0 <= x ->
    GoTime.leadingInt s x = Some (q, r) ->
    x <= q < (x + 1) * 10 ^ Z.of_nat (String.length s).
Proof.
  induction s as [|c s IH]; intros x q r Hx H; simpl in H.
  - inversion H; subst. simpl. lia.
  - assert (Hpow : 10 ^ Z.of_nat (String.length (String c s))
                   = 10 * 10 ^ Z.of_nat (String.length s)).
    { cbn [String.length]. rewrite Nat2Z.inj_succ, Z.pow_succ_r by lia. reflexivity. }
    assert (Hpos : 0 < 10 ^ Z.of_nat (String.length s)) by (apply Z.pow_pos_nonneg; lia).
    rewrite Hpow.
    destruct (GoTime.isDigit c) eqn:Hc.
    + apply isDigit_val in Hc.
      destruct (x >? _); [discriminate|].
      destruct (_ >? _); [discriminate|].
      apply IH in H; [|lia]. nia.
    + inversion H; subst. nia.
Qed.

Lemma take_length_le (n : nat) (s : string) : (String.length (Str.take n s) <= n)%nat.
Proof.
  revert s. induction n as [|n IH]; intros s; [simpl; lia|].
  destruct s as [|c s]; simpl; [lia|]. specialize (IH s). lia.
Qed.

Lemma atoi_bound (s : string) (n : nat) (v : Z) :
  (String.length s <= n)%nat -> (n <= 18)%nat ->
  GoTime.atoi s = Some v -> - 10 ^ Z.of_nat n < v < 10 ^ Z.of_nat n.
Proof.
  intros Hlen Hn. unfold GoTime.atoi.
  assert (Hmono : forall k : nat, (k <= n)%nat -> 10 ^ Z.of_nat k <= 10 ^ Z.of_nat n).
  { intros k Hk. apply Z.pow_le_mono_r; lia. }
  assert (Hmax : 10 ^ Z.of_nat n <= 10 ^ 18).
  { apply Z.pow_le_mono_r; lia. }
  assert (Hwrap : forall q, 0 <= q < 10 ^ Z.of_nat n -> Int64.wrap q = q).
  { intros q Hq. apply wrap_small.
    unfold Int64.in_range, Int64.min_int, Int64.max_int.
    change (10 ^ 18) with 1000000000000000000 in Hmax. lia. }
  assert (Hwrapn : forall q, 0 <= q < 10 ^ Z.of_nat n -> Int64.wrap (- q) = - q).
  { intros q Hq. apply wrap_small.
    unfold Int64.in_range, Int64.min_int, Int64.max_int.
    change (10 ^ 18) with 1000000000000000000 in Hmax. lia. }
  assert (Hbody : forall b q r, (String.length b <= n)%nat ->
                    GoTime.leadingInt b 0 = Some (q, r) -> 0 <= q < 10 ^ Z.of_nat n).
  { intros b q r Hb Hl. apply leadingInt_bound in Hl; [|lia].
    specialize (Hmono _ Hb). lia. }
  destruct s as [|c rest].
  - simpl. intros H; inversion H; subst.
    pose proof (Z.pow_pos_nonneg 10 (Z.of_nat n) ltac:(lia) ltac:(lia)).
    rewrite wrap_small
      by (unfold Int64.in_range, Int64.min_int, Int64.max_int; lia). lia.
  - simpl in Hlen.
    destruct (Ascii.eqb c "-").
    + destruct (GoTime.leadingInt rest 0) as [[q [|? ?]]|] eqn:Hl; try discriminate.
      intros H; inversion H; subst.
      assert (Hq := Hbody rest q _ ltac:(lia) Hl).
      rewrite (Hwrap q Hq), (Hwrapn q Hq). lia.
    + destruct (Ascii.eqb c "+").
      * destruct (GoTime.leadingInt rest 0) as [[q [|? ?]]|] eqn:Hl; try discriminate.
        intros H; inversion H; subst.
        assert (Hq := Hbody rest q _ ltac:(lia) Hl).
        rewrite (Hwrap q Hq). lia.
      * destruct (GoTime.leadingInt (String c rest) 0) as [[q [|? ?]]|] eqn:Hl;
          try discriminate.
        intros H; inversion H; subst.
        assert (Hq := Hbody (String c rest) q _ ltac:(simpl; lia) Hl).
        rewrite (Hwrap q Hq). lia.
Qed.

Lemma isDigit_not_sign (c : ascii) :
  GoTime.isDigit c = true -> Ascii.eqb c "-" = false /\ Ascii.eqb c "+" = false.
Proof.
  intros H. split.
  - destruct (Ascii.eqb c "-") eqn:E; [|reflexivity].
    apply Ascii.eqb_eq in E. subst c. discriminate.
  - destruct (Ascii.eqb c "+") eqn:E; [|reflexivity].
    apply Ascii.eqb_eq in E. subst c. discriminate.
Qed.

Lemma atoi_digit_first (c : ascii) (rest : string) (n : nat) (v : Z) :
  GoTime.isDigit c = true ->
  (String.length (String c rest) <= n)%nat -> (n <= 18)%nat ->
  GoTime.atoi (String c rest) = Some v -> 0 <= v < 10 ^ Z.of_nat n.
Proof.
  intros Hc Hlen Hn H.
  pose proof (atoi_bound (String c rest) n v Hlen Hn H) as Hb.
  split; [|lia].
  unfold GoTime.atoi in H. destruct (isDigit_not_sign c Hc) as [E1 E2].
  rewrite E1, E2 in H.
  destruct (GoTime.leadingInt (String c rest) 0) as [[q [|? ?]]|] eqn:Hl;
    try discriminate.
  inversion H; subst.
  apply leadingInt_bound in Hl; [|lia].
  assert (10 ^ Z.of_nat (String.length (String c rest)) <= 10 ^ 18)
    by (apply Z.pow_le_mono_r; lia).
  rewrite wrap_small; [lia|].
  unfold Int64.in_range, Int64.min_int, Int64.max_int.
  change (10 ^ 18) with 1000000000000000000 in *. lia.
Qed.

Lemma daysIn_le (m y : Z) : 28 <= GoTime.daysIn m y <= 31.
Proof.
  unfold GoTime.daysIn.
  destruct (m =? 2); [destruct (GoTime.isLeap y); lia|].
  destruct ((m =? 4) || (m =? 6) || (m =? 9) || (m =? 11)); lia.
Qed.

Lemma parseNanoseconds4_bound (value : string) (ns : Z) :
  GoTime.parseNanoseconds4 value = Some ns -> 0 <= ns <= 999000000.
Proof.
  unfold GoTime.parseNanoseconds4.
  destruct value as [|c rest]; [discriminate|].
  destruct (GoTime.commaOrPeriod c); [|discriminate].
  destruct (GoTime.atoi (Str.take 3 rest)) as [v|] eqn:Ha; [|discriminate].
  destruct (v <? 0) eqn:Hv; [discriminate|].
  intros H; inversion H; subst.
  apply (atoi_bound _ 3) in Ha; [|apply take_length_le|lia].
  change (10 ^ Z.of_nat 3) with 1000 in Ha. lia.
Qed.

(** A timestamp that parses names a date between the years 0 and 9999 and a
    time of day, to the millisecond. *)
Lemma parseCivil_fields (value : string) (c : GoTime.civil) :
  GoTime.parseCivil value = Some c ->
  0 <= GoTime.year c <= 9999
  /\ 1 <= GoTime.month c <= 12 /\ 1 <= GoTime.day c <= 31
  /\ 0 <= GoTime.hour c <= 23 /\ 0 <= GoTime.minute c <= 59
  /\ 0 <= GoTime.second c <= 59 /\ 0 <= GoTime.nano c <= 999000000.
Proof.
  unfold GoTime.parseCivil, GoTime.guard, GoTime.obind. intros H.
  destruct value as [|c0 v0]; [discriminate|].
  destruct ((4 <=? String.length (String c0 v0))%nat && GoTime.isDigit c0) eqn:Hg;
    [|discriminate].
  apply andb_true_iff in Hg as [_ Hc0].
  destruct (GoTime.atoi (Str.take 4 (String c0 v0))) as [y|] eqn:Hy; [|discriminate].
  change (Str.take 4 (String c0 v0)) with (String c0 (Str.take 3 v0)) in Hy.
  apply (atoi_digit_first c0 _ 4) in Hy;
    [|exact Hc0|pose proof (take_length_le 3 v0); cbn [String.length]; lia|lia].
  change (10 ^ Z.of_nat 4) with 10000 in Hy.
  repeat match type of H with
         | match ?x with _ => _ end = Some _ =>
             let E := fresh "E" in destruct x eqn:E; [|discriminate]
         | (let '(_, _) := ?x in _) = Some _ => destruct x
         | (if ?b then _ else None) = Some _ =>
             let E := fresh "E" in destruct b eqn:E; [|discriminate]
         end.
  inversion H; subst; clear H. cbn [GoTime.year GoTime.month GoTime.day
    GoTime.hour GoTime.minute GoTime.second GoTime.nano].
  repeat match goal with
         | E : GoTime.getnum _ _ = Some _ |- _ => apply getnum_bound in E
         | E : GoTime.parseNanoseconds4 _ = Some _ |- _ =>
             apply parseNanoseconds4_bound in E
         end.
  match goal with
  | E : negb ((?d <? 1) || (GoTime.daysIn ?mo ?yy <? ?d)) = true |- _ =>
      pose proof (daysIn_le mo yy)
  end.
  repeat match goal with
         | E : negb _ = true |- _ =>
             apply negb_true_iff in E; apply orb_false_iff in E; destruct E
         end.
  lia.
Qed.

(** Hence its instant, in milliseconds, is far inside the [int64] range. *)
Lemma Parse_UnixMilli_bound (loc : GoTime.Location) (ts : string) (t : GoTime.Time) :
  sane_location loc ->
  GoTime.ParseInLocation loc ts = Some t ->
  - 2 ^ 50 <= GoTime.UnixMilli t <= 2 ^ 50.
Proof.
  intros Hloc H. unfold GoTime.ParseInLocation in H.
  destruct (GoTime.parseCivil ts) as [c|] eqn:Hc; [|discriminate].
  inversion H; subst; clear H.
  apply parseCivil_fields in Hc as (Hy & Hmo & Hd & Hh & Hmi & Hs & Hn).
  unfold GoTime.UnixMilli, GoTime.Date. cbn [GoTime.unixSec GoTime.nsec].
  set (unix := GoTime.days_from_civil _ _ _ * 86400 + _ + _ + _).
  assert (Hu : -62200000000 <= unix <= 253500000000).
  { subst unix. unfold GoTime.days_from_civil.
    destruct (GoTime.month c <=? 2); Z.div_mod_to_equations; lia. }
  set (off := if _ =? 0 then 0 else _).
  assert (Ho : -86400 <= off <= 86400).
  { subst off. destruct (_ =? 0); [lia|].
    destruct (_ || _); apply Hloc. }
  rewrite Z.quot_div_nonneg by lia.
  unfold Int64.add, Int64.mul.
  change (2 ^ 50) with 1125899906842624.
  rewrite (wrap_small ((unix - off) * 1000))
    by (unfold Int64.in_range, Int64.min_int, Int64.max_int; lia).
  rewrite wrap_small
    by (unfold Int64.in_range, Int64.min_int, Int64.max_int;
        Z.div_mod_to_equations; lia).
  Z.div_mod_to_equations. lia.
Qed.

(** ** The retention rule *)

Lemma hyphen_split_complete (loc : GoTime.Location) (ts : string) (t : GoTime.Time) :
  GoTime.ParseInLocation loc ts = Some t ->
  forall (prefix : string) (seen : bool),
    seen || Str.contains "-" prefix = true ->
    hyphen_split loc seen (prefix ++ "-" ++ ts ++ ".log") = true.
Proof.
  intros Hts. induction prefix as [|c prefix IH]; intros seen Hseen.
  - simpl in Hseen. rewrite orb_false_r in Hseen. subst seen.
    cbn [append hyphen_split].
    destruct (HasSuffix_app ts ".log") as [Hs Ht].
    rewrite Ascii.eqb_refl, Hs, Ht, Hts. reflexivity.
  - cbn [append hyphen_split]. apply orb_true_iff. right.
    apply IH. simpl in Hseen.
    destruct seen; [reflexivity|]. simpl in *.
    destruct (Ascii.eqb c "-"); [reflexivity | exact Hseen].
Qed.

Lemma hyphen_split_sound (loc : GoTime.Location) (name : string) :
  hyphen_split loc false name = false -> ~ hyphenated_archive loc name.
Proof.
  intros H (prefix & t & (ts & -> & Hts) & Hc).
  rewrite (hyphen_split_complete loc ts t Hts prefix false) in H; [discriminate|].
  exact Hc.
Qed.

(** The comparison of [match] on [int64] is the comparison of the integers
    when the clock, the timestamp and the retention are of ordinary size. *)
Lemma age_test (now_ms t_ms lifetime : Z) :
  - 2 ^ 62 <= now_ms <= 2 ^ 62 ->
  - 2 ^ 50 <= t_ms <= 2 ^ 50 ->
  - max_lifetime <= lifetime <= max_lifetime ->
  negb (Int64.sub now_ms t_ms
        <? Int64.mul (Int64.mul (Int64.mul (Int64.mul lifetime 24) 60) 60) 1000) = true
  <-> now_ms - t_ms >= lifetime * (24 * 60 * 60 * 1000).
Proof.
  unfold max_lifetime. intros Hn Ht Hl.
  change (2 ^ 62) with 4611686018427387904 in Hn.
  change (2 ^ 50) with 1125899906842624 in Ht.
  unfold Int64.sub, Int64.mul.
  rewrite (wrap_small (now_ms - t_ms))
    by (unfold Int64.in_range, Int64.min_int, Int64.max_int; lia).
  rewrite (wrap_small (lifetime * 24))
    by (unfold Int64.in_range, Int64.min_int, Int64.max_int; lia).
  rewrite (wrap_small (lifetime * 24 * 60))
    by (unfold Int64.in_range, Int64.min_int, Int64.max_int; lia).
  rewrite (wrap_small (lifetime * 24 * 60 * 60))
    by (unfold Int64.in_range, Int64.min_int, Int64.max_int; lia).
  rewrite (wrap_small (lifetime * 24 * 60 * 60 * 1000))
    by (unfold Int64.in_range, Int64.min_int, Int64.max_int; lia).
  rewrite negb_true_iff, Z.ltb_ge. lia.
Qed.

(** The verdict of [match] against the rule of the specification. *)
Lemma match_result_spec (loc : GoTime.Location) (lifetime : Z)
      (now : GoTime.Time) (name : string) :
  sane_location loc ->
  - max_lifetime <= lifetime <= max_lifetime ->
  - 2 ^ 62 <= GoTime.UnixMilli now <= 2 ^ 62 ->
  ~ hyphenated_archive loc name ->
  match_result loc lifetime now name = true
  <-> expired_archive loc now lifetime name.
Proof.
  intros Hloc Hl Hnow Hhy. unfold match_result. split.
  - destruct (Str.SplitN2 "-" name) as [|a [|fn [|x rest]]] eqn:Hsp;
      try discriminate.
    apply SplitN2_two in Hsp as [-> Ha].
    destruct (Str.HasSuffix fn ".log") eqn:Hsuf; [|discriminate]. simpl.
    destruct (GoTime.ParseInLocation loc _) as [t|] eqn:Hp; [|discriminate].
    intros Hage. exists a, t. split.
    + eexists. split; [|exact Hp].
      rewrite (HasSuffix_split fn ".log" Hsuf) at 1. reflexivity.
    + apply (age_test _ _ lifetime Hnow (Parse_UnixMilli_bound loc _ t Hloc Hp) Hl).
      exact Hage.
  - intros (prefix & t & (ts & -> & Hp) & Hage).
    destruct (Str.contains "-" prefix) eqn:Hc.
    + exfalso. apply Hhy. exists prefix, t. split; [|exact Hc]. now exists ts.
    + change (prefix ++ "-" ++ ts ++ ".log")
        with (prefix ++ String "-" (ts ++ ".log")).
      rewrite (SplitN2_app_sep "-" prefix (ts ++ ".log") Hc).
      destruct (HasSuffix_app ts ".log") as [Hs Ht].
      rewrite Hs, Ht, Hp. simpl.
      apply (age_test _ _ lifetime Hnow (Parse_UnixMilli_bound loc _ t Hloc Hp) Hl).
      exact Hage.
Qed.

Lemma sane_east8 : sane_location east8.
Proof. intros u. simpl. lia. Qed.




(* ================================================================== *)
(** * Further properties of the package *)

(** ** The name of the log *)

Lemma last_field_sep (sep : ascii) (rest : string) :
  last_field sep (String sep rest) = last_field sep rest.
Proof.
  unfold last_field. cbn [Str.Split]. rewrite Ascii.eqb_refl.
  destruct (Str.Split sep rest) as [|f fs] eqn:Hs.
  - now apply Split_not_nil in Hs.
  - cbn [List.length]. rewrite !Nat.sub_succ, !Nat.sub_0_r. reflexivity.
Qed.

Lemma contains_app_sep (sep : ascii) (a b : string) :
  Str.contains sep (a ++ String sep b) = true.
Proof.
  induction a as [|c a IH]; simpl.
  - now rewrite Ascii.eqb_refl.
  - rewrite IH. apply orb_true_r.
Qed.

(** The last field has no separator in it, and the string is the last field
    alone or ends with a separator followed by the last field. *)
Lemma last_field_spec (sep : ascii) (s : string) :
  Str.contains sep (last_field sep s) = false
  /\ (s = last_field sep s
      \/ exists pre, s = pre ++ String sep (last_field sep s)).
Proof.
  induction s as [|c s IH].
  - split; [reflexivity | now left].
  - destruct (Ascii.eqb c sep) eqn:Hc.
    + apply Ascii.eqb_eq in Hc. subst c. rewrite last_field_sep.
      destruct IH as [Hf [Hs|[pre Hs]]]; (split; [exact Hf|right]).
      * exists "". simpl. now rewrite <- Hs.
      * exists (String sep pre). simpl. now rewrite <- Hs.
    + unfold last_field in *. cbn [Str.Split]. rewrite Hc.
      destruct (Str.Split sep s) as [|f [|g fs]] eqn:Hs.
      * now apply Split_not_nil in Hs.
      * apply Split_one in Hs as [-> Hf]. simpl. rewrite Hc, Hf.
        split; [reflexivity | now left].
      * cbn [List.length] in *. rewrite !Nat.sub_succ, !Nat.sub_0_r in *.
        change (nth (S (List.length fs)) (String c f :: g :: fs) "")
          with (nth (S (List.length fs)) (f :: g :: fs) "").
        destruct IH as [Hf [Hs'|[pre Hs']]]; (split; [exact Hf|]).
        -- exfalso. rewrite Hs' in Hs at 1.
           rewrite (Split_no_sep sep _ Hf) in Hs. discriminate.
        -- right. exists (String c pre). cbn [append]. f_equal. exact Hs'.
Qed.

Lemma last_field_app_sep (sep : ascii) (g : string) :
  forall pre, last_field sep (pre ++ String sep g) = last_field sep g.
Proof.
  induction pre as [|c pre IH].
  - apply last_field_sep.
  - destruct (Ascii.eqb c sep) eqn:Hc.
    + apply Ascii.eqb_eq in Hc. subst c. simpl. now rewrite last_field_sep.
    + unfold last_field in *. cbn [append Str.Split]. rewrite Hc.
      destruct (Str.Split sep (pre ++ String sep g)) as [|f [|f' fs]] eqn:Hs.
      * now apply Split_not_nil in Hs.
      * apply Split_one in Hs as [Hs Hf]. rewrite <- Hs in Hf.
        rewrite contains_app_sep in Hf. discriminate.
      * rewrite <- IH. cbn [List.length]. rewrite !Nat.sub_succ, !Nat.sub_0_r. reflexivity.
Qed.

Lemma LogName_last_field (p : Portal) : LogName p = last_field "/" (URL p).
Proof.
  unfold LogName, last_field.
  destruct (Str.Split "/" (URL p)) as [|f fs] eqn:Hs.
  - now apply Split_not_nil in Hs.
  - reflexivity.
Qed.

(** X1.  [LogName] is the text after the last slash of the URL: it holds no
    slash, and the URL is that text alone or ends with a slash followed by
    it. *)
Theorem X1_LogName_after_last_slash :
  forall p : Portal,
    Str.contains "/" (LogName p) = false
    /\ (URL p = LogName p \/ exists pre, URL p = pre ++ "/" ++ LogName p).
Proof.
  intros p. rewrite LogName_last_field. apply last_field_spec.
Qed.

(** X2.  [Init] fails exactly when the URL is empty or ends with a slash;
    then the session is left as it was.  Otherwise it stores [LogName] as
    the filename, which is then not empty, and changes nothing else.  It
    makes no call to the outside world. *)
Theorem X2_Init_fails_on_empty_name :
  forall (p : Portal) (h : History),
    let out := Init (mkState p h) in
    hist (snd out) = h
    /\ (fst out <> None <-> URL p = "" \/ exists pre, URL p = pre ++ "/")
    /\ match fst out with
       | None => self (snd out) = set_filename (LogName p) p /\ LogName p <> ""
       | Some e => self (snd out) = p
                   /\ e = "invalid log file url: {" ++ URL p ++ "}"
       end.
Proof.
  intros p h out. subst out. unfold Init. unfold_monad.
  destruct (String.eqb (LogName p) "") eqn:Hn; simpl.
  - apply String.eqb_eq in Hn. split; [reflexivity|]. split; [|auto].
    split; [intros _|discriminate].
    destruct (last_field_spec "/" (URL p)) as [_ [Hu|[pre Hu]]];
      rewrite <- LogName_last_field, Hn in Hu; [now left | right; now exists pre].
  - apply String.eqb_neq in Hn. split; [reflexivity|]. split; [|auto].
    split; [intros H; now contradiction H|].
    intros [Hu|[pre Hu]]; exfalso; apply Hn; rewrite LogName_last_field, Hu.
    + reflexivity.
    + change (pre ++ "/") with (pre ++ String "/" ""). now rewrite last_field_app_sep.
Qed.

(** ** Setting up the writer *)

(** X3.  [SetupWriter] can fail only when the file sink is asked for, in
    three ways: an empty directory name (nothing is touched on disk), a
    failed [MkdirAll] (no file is opened) and a failed [OpenFile].  A failed
    call leaves the file handle, the writer and [FilePortal] as they were. *)
Theorem X3_SetupWriter_failure :
  forall (E : Env) (p : Portal) (h : History) (dc ef : bool) (d : string) (l : Z)
         (e : error),
    let out := SetupWriter E dc ef d l (mkState p h) in
    fst out = Some e ->
    ef = true
    /\ file (self (snd out)) = file p
    /\ writer (self (snd out)) = writer p
    /\ FilePortal (self (snd out)) = FilePortal p
    /\ ((d = "" /\ hist (snd out) = h /\ e = "invalid log dir[]")
        \/ (exists e', hist (snd out) = EvMkdirAll d 493 (Some e') :: h
                       /\ e = "make mkdir[" ++ d ++ "]: " ++ e')
        \/ (exists e', hist (snd out)
                       = EvOpenFile (filepath_Join E d (filename p))
                                    (Z.lor (Z.lor O_CREATE O_APPEND) O_RDWR) 420 (Err e')
                           :: EvMkdirAll d 493 None :: h
                       /\ e = "open file[" ++ filepath_Join E d (filename p) ++ "]: " ++ e')).
Proof.
  intros E p h dc ef d l e out. subst out.
  unfold SetupWriter. unfold_monad.
  destruct ef; simpl.
  2:{ destruct dc; simpl; discriminate. }
  destruct (String.eqb d "") eqn:Hd.
  { apply String.eqb_eq in Hd. subst d.
    destruct dc; simpl; intros H; inversion H; subst; auto 10. }
  destruct dc; simpl.
  - destruct (os_MkdirAll E h d 493) as [e1|] eqn:Hmk; simpl.
    + intros H; inversion H; subst. repeat split; auto. right. left. now exists e1.
    + destruct (os_OpenFile E _ _ _ _) as [f|e2] eqn:Hop; simpl; [discriminate|].
      intros H; inversion H; subst. repeat split; auto. right. right. now exists e2.
  - destruct (os_MkdirAll E h d 493) as [e1|] eqn:Hmk; simpl.
    + intros H; inversion H; subst. repeat split; auto. right. left. now exists e1.
    + destruct (os_OpenFile E _ _ _ _) as [f|e2] eqn:Hop; simpl; [discriminate|].
      intros H; inversion H; subst. repeat split; auto. right. right. now exists e2.
Qed.

(** An empty directory name, a refused [MkdirAll]. *)
Lemma X3_SetupWriter_failure_witness :
  hist (snd (SetupWriter (calm []) false true "" 3
                         (mkState (New "http://host/a.log" 2 0) []))) = []
  /\ writer (self (snd (SetupWriter (calm []) true true "" 3
                                    (mkState (New "http://host/a.log" 2 0) [])))) = [].
Proof.
  split.
  - destruct (X3_SetupWriter_failure (calm []) (New "http://host/a.log" 2 0) []
                false true "" 3 "invalid log dir[]" eq_refl)
      as (_ & _ & _ & _ & [(_ & H & _)|[(e' & H & _)|(e' & H & _)]]).
    + exact H.
    + discriminate H.
    + discriminate H.
  - destruct (X3_SetupWriter_failure (calm []) (New "http://host/a.log" 2 0) []
                true true "" 3 "invalid log dir[]" eq_refl)
      as (_ & _ & H & _).
    exact H.
Defined.

Lemma sinks_agreeb_sound (p : Portal) : sinks_agreeb p = true -> sinks_agree p.
Proof.
  unfold sinks_agreeb, sinks_agree. intros H.
  apply andb_true_iff in H as [Hc Hf]. apply Bool.eqb_prop in Hc.
  split; [|split].
  - rewrite <- Hc. rewrite existsb_exists. split.
    + intros H. now exists Stdout.
    + intros [[|g] [Hin Hs]]; [exact Hin | discriminate].
  - intros HF. rewrite HF in Hf. destruct (file p) as [f|]; [|discriminate].
    apply andb_true_iff in Hf as [Hex Hall]. exists f. split; [reflexivity|].
    intros g. split.
    + intros Hin. rewrite forallb_forall in Hall. specialize (Hall _ Hin).
      simpl in Hall. now apply Nat.eqb_eq in Hall.
    + intros ->. apply existsb_exists in Hex as [[|g] [Hin Hs]]; [discriminate|].
      simpl in Hs. apply Nat.eqb_eq in Hs. now subst g.
  - intros HF. rewrite HF in Hf. intros g Hin.
    rewrite forallb_forall in Hf. specialize (Hf _ Hin). discriminate.
Qed.

(** X4.  A successful [SetupWriter] on a session whose file sink is still
    off leaves the sinks in agreement with the flags: the console is a sink
    unless it was switched off, the file just opened is the only file sink
    and is the session's handle, opened at [Join(dir, filename)] in
    create+append mode.  With both sinks off it succeeds with no sink at
    all. *)
Theorem X4_SetupWriter_success :
  forall (E : Env) (p : Portal) (h : History) (dc ef : bool) (d : string) (l : Z),
    let out := SetupWriter E dc ef d l (mkState p h) in
    let q := self (snd out) in
    FilePortal p = false ->
    fst out = None ->
    sinks_agree q
    /\ (ConsolePortal q = ConsolePortal p && negb dc
        /\ filename q = filename p
        /\ if ef then Dir q = d /\ Lifetime q = l
           else Dir q = Dir p /\ Lifetime q = Lifetime p)
    /\ FilePortal q = ef
    /\ (writer q = [] <-> ConsolePortal p && negb dc = false /\ ef = false)
    /\ (ef = true ->
        exists f rest,
          file q = Some f
          /\ hist (snd out)
             = EvOpenFile (filepath_Join E d (filename p))
                          (Z.lor (Z.lor O_CREATE O_APPEND) O_RDWR) 420 (Ok f) :: rest
          /\ create_append (Z.lor (Z.lor O_CREATE O_APPEND) O_RDWR) = true
          /\ d <> "").
Proof.
  intros E p h dc ef d l out q HF. subst q out.
  unfold SetupWriter. unfold_monad.
  destruct ef; simpl.
  - destruct (String.eqb d "") eqn:Hd.
    { destruct dc; simpl; discriminate. }
    apply String.eqb_neq in Hd.
    destruct dc; simpl;
      (destruct (os_MkdirAll E h d 493); simpl; [discriminate|]);
      (destruct (os_OpenFile E _ _ _ _) as [f|e2]; simpl; [|discriminate]);
      intros _; destruct (ConsolePortal p) eqn:HC; simpl;
      (split; [apply sinks_agreeb_sound; unfold sinks_agreeb; simpl;
               rewrite ?HC, ?Nat.eqb_refl; reflexivity|]);
      (split; [rewrite ?HC; auto|]);
      (split; [reflexivity|]);
      (split; [split; [discriminate | intros [_ H]; discriminate]|]);
      intros _; exists f; eexists; repeat split; auto.
  - destruct dc; simpl; intros _; destruct (ConsolePortal p) eqn:HC; simpl;
      (split; [apply sinks_agreeb_sound; unfold sinks_agreeb; simpl;
               rewrite ?HC, ?HF; reflexivity|]);
      (split; [rewrite ?HC; auto|]);
      (split; [exact HF|]);
      (split; [|discriminate]);
      split; auto; try discriminate; intros [H _]; discriminate.
Qed.

Lemma X4_SetupWriter_success_witness :
  sinks_agree file_session
  /\ writer (self (snd (SetupWriter (calm []) true false "" 3
                                    (mkState (New "http://host/a.log" 2 0) [])))) = [].
Proof.
  split.
  - exact (proj1 (X4_SetupWriter_success (calm [])
                    (set_filename "access.log" (New "http://host/logs/access.log" 2 10))
                    [] false true "/var/mirror" 3 eq_refl eq_refl)).
  - apply (proj1 (proj2 (proj2 (proj2 (X4_SetupWriter_success (calm [])
                    (New "http://host/a.log" 2 0) [] true false "" 3 eq_refl eq_refl))))).
    split; reflexivity.
Defined.

(** ** What a run keeps *)

Lemma evolves_refl (p : Portal) : evolves p p.
Proof. unfold evolves, same_config. tauto. Qed.

Lemma evolves_trans (p q r : Portal) : evolves p q -> evolves q r -> evolves p r.
Proof.
  unfold evolves, same_config.
  intros ((A1 & A2 & A3 & A4 & A5 & A6 & A7 & A8) & S1 & O1)
         ((B1 & B2 & B3 & B4 & B5 & B6 & B7 & B8) & S2 & O2).
  split; [|split].
  - repeat split; congruence.
  - intros H. apply S2, S1, H.
  - intros H. apply O2, O1, H.
Qed.

Lemma evolves_set_offset (p : Portal) (o : Z) :
  (0 <= offset p -> 0 <= o) -> evolves p (set_offset o p).
Proof.
  intros H. unfold evolves, same_config, sinks_agree. simpl. tauto.
Qed.

Lemma RotateFile_self (E : Env) (p : Portal) (h : History) :
  self (snd (RotateFile E (mkState p h))) = p
  \/ (FilePortal p = true
      /\ exists f, self (snd (RotateFile E (mkState p h))) = reopened f p).
Proof.
  unfold RotateFile, reopened. unfold_monad.
  destruct (FilePortal p) eqn:HF; simpl; [|now left].
  destruct (file p) as [f0|]; simpl; [|now left].
  destruct (file_Sync E _ f0); simpl; [now left|].
  destruct (file_Close E _ f0); simpl; [now left|].
  destruct (os_Rename E _ _ _); simpl; [now left|].
  destruct (os_OpenFile E _ _ _ _) as [f1|]; simpl; [|now left].
  right. split; [reflexivity|]. now exists f1.
Qed.

Lemma RotateFile_evolves (E : Env) (p : Portal) (h : History) :
  evolves p (self (snd (RotateFile E (mkState p h)))).
Proof.
  destruct (RotateFile_self E p h) as [->|(HF & f & ->)]; [apply evolves_refl|].
  unfold evolves, same_config, reopened. simpl.
  split; [tauto|]. split; [|tauto].
  intros _. apply sinks_agreeb_sound. unfold sinks_agreeb. simpl.
  rewrite HF, Nat.eqb_refl. destruct (ConsolePortal p); reflexivity.
Qed.

Lemma tick_evolves (E : Env) (p : Portal) (h : History) :
  evolves p (self (snd (tick E (mkState p h)))).
Proof.
  unfold tick. unfold bind at 1.
  pose proof (LogSize_frame E (mkState p h)) as [Hself _].
  destruct (LogSize E (mkState p h)) as [[S_ getErr] s1]. simpl in Hself.
  destruct getErr as [e|].
  - unfold_monad. rewrite Hself. apply evolves_refl.
  - unfold bind at 1. unfold get at 1. rewrite Hself.
    destruct (S_ >? offset p) eqn:Hgt.
    + unfold bind at 1.
      pose proof (FetchIncrContent_frame E (offset p) S_ s1) as [Hs2 _].
      destruct (FetchIncrContent E (offset p) S_ s1) as [err s2]. simpl in Hs2.
      destruct err; unfold_monad; rewrite Hs2, Hself.
      * apply evolves_refl.
      * apply evolves_set_offset. lia.
    + destruct (S_ <? offset p) eqn:Hlt.
      * unfold bind at 1. destruct s1 as [p1 h1]. simpl in Hself. subst p1.
        pose proof (RotateFile_evolves E p h1) as Hr.
        destruct (RotateFile E (mkState p h1)) as [err s2]. simpl in Hr.
        assert (Hfin : evolves p (set_offset 0 (self s2))).
        { eapply evolves_trans; [exact Hr|]. apply evolves_set_offset. lia. }
        destruct err; unfold_monad; exact Hfin.
      * unfold_monad. rewrite Hself. apply evolves_refl.
Qed.

Lemma ticks_evolves (E : Env) (n : nat) :
  forall (p : Portal) (h : History),
    evolves p (self (snd (ticks E n (mkState p h)))).
Proof.
  induction n as [|n IH]; intros p h; simpl.
  - apply evolves_refl.
  - unfold bind. pose proof (tick_evolves E p h) as H1.
    destruct (tick E (mkState p h)) as [[] [p1 h1]]. simpl in H1.
    eapply evolves_trans; [exact H1 | apply IH].
Qed.

Lemma Start_evolves (E : Env) (n : nat) (p : Portal) (h : History) :
  evolves p (self (snd (Start E n (mkState p h)))).
Proof.
  unfold Start. unfold bind.
  pose proof (Start_before_loop_keeps_session E p h) as H0.
  destruct (Start_before_loop E (mkState p h)) as [c [p0 h0]]. simpl in H0. subst p0.
  apply ticks_evolves.
Qed.

Lemma Finalize_evolves (E : Env) (p : Portal) (h : History) :
  evolves p (self (snd (Finalize E (mkState p h)))).
Proof.
  unfold Finalize. unfold bind at 1.
  pose proof (RotateFile_evolves E p h) as Hr.
  destruct (RotateFile E (mkState p h)) as [err [p1 h1]]. simpl in Hr.
  unfold_monad. destruct (file p1); simpl; exact Hr.
Qed.

Lemma run_evolves (E : Env) (n : nat) (p : Portal) (h : History) :
  evolves p (self (snd (Finalize E (snd (Start E n (mkState p h)))))).
Proof.
  pose proof (Start_evolves E n p h) as H1.
  destruct (Start E n (mkState p h)) as [[] [p1 h1]]. simpl in *.
  eapply evolves_trans; [exact H1 | apply Finalize_evolves].
Qed.

(** X5.  No run changes the configuration of the session: after [Start]
    for any number of ticks, followed by [Finalize], the URL, [Tail],
    [Interval], [Dir], [Lifetime], the two sink flags and the live filename
    are what they were. *)
Theorem X5_configuration_is_kept :
  forall (E : Env) (n : nat) (p : Portal) (h : History),
    same_config p (self (snd (Start E n (mkState p h))))
    /\ same_config p (self (snd (Finalize E (snd (Start E n (mkState p h)))))).
Proof.
  intros E n p h. split.
  - exact (proj1 (Start_evolves E n p h)).
  - exact (proj1 (run_evolves E n p h)).
Qed.

(** X6.  The sinks stay in agreement with the session through any run: if
    they agree before, then after [Start] for any number of ticks -- however
    many rotations succeed or fail -- and after [Finalize] the console is a
    sink exactly when [ConsolePortal] is set and the only file sink is the
    session's current handle. *)
Theorem X6_sinks_stay_in_agreement :
  forall (E : Env) (n : nat) (p : Portal) (h : History),
    sinks_agree p ->
    sinks_agree (self (snd (Start E n (mkState p h))))
    /\ sinks_agree (self (snd (Finalize E (snd (Start E n (mkState p h)))))).
Proof.
  intros E n p h Hp. split.
  - exact (proj1 (proj2 (Start_evolves E n p h)) Hp).
  - exact (proj1 (proj2 (run_evolves E n p h)) Hp).
Qed.

(** A run with a rotation: the remote file shrinks from 100 to 40 bytes. *)
Lemma X6_sinks_stay_in_agreement_witness :
  sinks_agree (self (snd (Start (calm [size 100; size 100; size 40; size 50]) 3
                                (mkState file_session []))))
  /\ writer (self (snd (Start (calm [size 100; size 100; size 40; size 50]) 3
                              (mkState file_session []))))
     = [FileSink 23%nat; Stdout].
Proof.
  split; [|vm_compute; reflexivity].
  assert (H0 : sinks_agree file_session)
    by (apply sinks_agreeb_sound; vm_compute; reflexivity).
  exact (proj1 (X6_sinks_stay_in_agreement
                  (calm [size 100; size 100; size 40; size 50]) 3 file_session [] H0)).
Defined.

(** X7.  The offset never becomes negative: from a non-negative offset,
    any number of ticks ends with a non-negative offset, whatever sizes the
    probes report (a size of -1 included). *)
Theorem X7_offset_never_negative :
  forall (E : Env) (n : nat) (p : Portal) (h : History),
    0 <= offset p ->
    0 <= offset (self (snd (ticks E n (mkState p h))))
    /\ 0 <= offset (self (snd (Start E n (mkState p h)))).
Proof.
  intros E n p h Hp. split.
  - exact (proj2 (proj2 (ticks_evolves E n p h)) Hp).
  - exact (proj2 (proj2 (Start_evolves E n p h)) Hp).
Qed.

Lemma X7_offset_never_negative_witness :
  0 <= offset (self (snd (ticks (calm [size 70; size (-1); size (-5)]) 3
                                (mkState console_session [])))).
Proof.
  apply (X7_offset_never_negative
           (calm [size 70; size (-1); size (-5)]) 3 console_session []).
  vm_compute. discriminate.
Defined.


(** ** The command *)

(** [Init] and [SetupWriter], answer by answer. *)
Lemma Init_run (p : Portal) (h : History) :
  Init (mkState p h)
  = if String.eqb (LogName p) "" then
      (Some ("invalid log file url: {" ++ URL p ++ "}"), mkState p h)
    else (None, mkState (set_filename (LogName p) p) h).
Proof.
  unfold Init. unfold_monad. destruct (String.eqb (LogName p) ""); reflexivity.
Qed.

Lemma SetupWriter_run (E : Env) (dc ef : bool) (d : string) (l : Z)
      (p : Portal) (h : History) :
  SetupWriter E dc ef d l (mkState p h)
  = let p1 := if dc then set_ConsolePortal false p else p in
    let writers : Writer := if ConsolePortal p1 then [Stdout] else [] in
    if ef then
      if String.eqb d "" then (Some ("invalid log dir[" ++ d ++ "]"), mkState p1 h)
      else
        match os_MkdirAll E h d 493 with
        | Some err =>
            (Some ("make mkdir[" ++ d ++ "]: " ++ err),
             mkState p1 (EvMkdirAll d 493 (Some err) :: h))
        | None =>
            let h1 := EvMkdirAll d 493 None :: h in
            let path := filepath_Join E d (filename p1) in
            let flag := Z.lor (Z.lor O_CREATE O_APPEND) O_RDWR in
            match os_OpenFile E h1 path flag 420 with
            | Err err =>
                (Some ("open file[" ++ path ++ "]: " ++ err),
                 mkState p1 (EvOpenFile path flag 420 (Err err) :: h1))
            | Ok f =>
                (None,
                 mkState (set_writer (writers ++ [FileSink f])%list
                                     (enable_file f d l p1))
                         (EvOpenFile path flag 420 (Ok f) :: h1))
            end
        end
    else (None, mkState (set_writer writers p1) h).
Proof.
  unfold SetupWriter.
  cbv beta iota zeta delta [bind call emit ret get modify self hist].
  destruct dc, ef; try reflexivity.
  - destruct (String.eqb d ""); [reflexivity|].
    destruct (os_MkdirAll E h d 493) eqn:Hmk; [reflexivity|].
    cbv beta iota zeta delta [self hist filename set_ConsolePortal].
    destruct (os_OpenFile E _ _ _ _); reflexivity.
  - destruct (String.eqb d ""); [reflexivity|].
    destruct (os_MkdirAll E h d 493) eqn:Hmk; [reflexivity|].
    cbv beta iota zeta delta [self hist filename].
    destruct (os_OpenFile E _ _ _ _); reflexivity.
Qed.

(** X8.  [main] gets as far as starting the loop only with a non-empty URL
    whose name after the last slash is not empty, a positive interval, a
    non-negative tail, at least one sink and, for the file sink, a directory
    name.  The session it has built then has offset 0, the filename of the
    URL, at least one sink, and sinks that agree with its flags.  The
    lifetime is taken as it is given: no value of [-l] stops [main]. *)
Theorem X8_main_starts_only_when_valid :
  forall (E : Env) (fl : Flags) (p0 : Portal) (h : History),
    let out := main_until_start E fl (mkState p0 h) in
    let q := self (snd out) in
    fst out = true ->
    (fileURL fl <> "" /\ 0 < interval fl /\ 0 <= tail fl
     /\ (enableFile fl = true \/ disableConsole fl = false)
     /\ (enableFile fl = true -> dir fl <> ""))
    /\ (URL q = fileURL fl /\ Interval q = interval fl /\ Tail q = tail fl
        /\ offset q = 0 /\ filename q = LogName q /\ filename q <> "")
    /\ (ConsolePortal q = negb (disableConsole fl)
        /\ FilePortal q = enableFile fl
        /\ writer q <> [] /\ sinks_agree q)
    /\ (enableFile fl = true -> Dir q = dir fl /\ Lifetime q = lifetime fl).
Proof.
  intros E fl p0 h out q. subst q.
  assert (Hout : out = main_until_start E fl (mkState p0 h)) by reflexivity.
  clearbody out. unfold main_until_start, Println in Hout.
  destruct (String.eqb (fileURL fl) "") eqn:Hu;
    [unfold_monad; subst out; discriminate|].
  destruct (interval fl <=? 0) eqn:Hi; [unfold_monad; subst out; discriminate|].
  destruct (tail fl <? 0) eqn:Ht; [unfold_monad; subst out; discriminate|].
  destruct (negb (enableFile fl) && disableConsole fl) eqn:Hs;
    [unfold_monad; subst out; discriminate|].
  destruct (enableFile fl && String.eqb (dir fl) "") eqn:Hd;
    [unfold_monad; subst out; discriminate|].
  apply String.eqb_neq in Hu.
  unfold bind at 1 in Hout. unfold modify at 1 in Hout. cbn [self hist] in Hout.
  unfold bind at 1 in Hout. rewrite Init_run in Hout.
  set (p1 := New (fileURL fl) (interval fl) (tail fl)) in Hout.
  destruct (String.eqb (LogName p1) "") eqn:Hn;
    [unfold_monad; subst out; discriminate|].
  apply String.eqb_neq in Hn.
  unfold bind at 1 in Hout. rewrite SetupWriter_run in Hout. cbv zeta in Hout.
  assert (HL : forall q, URL q = fileURL fl -> LogName q = LogName p1).
  { intros q Hq. unfold LogName. now rewrite Hq. }
  destruct (enableFile fl) eqn:Hef; destruct (disableConsole fl) eqn:Hdc;
    simpl in Hs, Hd; try discriminate.
  - rewrite Hd in Hout. apply String.eqb_neq in Hd.
    destruct (os_MkdirAll E h (dir fl) 493);
      [unfold_monad; subst out; discriminate|].
    destruct (os_OpenFile E _ _ _ _) as [f|e];
      [|unfold_monad; subst out; discriminate].
    subst out. intros _. cbn [fst snd self ret].
    split; [repeat split; auto; lia|].
    split; [repeat split; auto; symmetry; now apply HL|].
    split; [|auto].
    split; [reflexivity|]. split; [reflexivity|]. split; [discriminate|].
    apply sinks_agreeb_sound. unfold sinks_agreeb. simpl.
    now rewrite Nat.eqb_refl.
  - rewrite Hd in Hout. apply String.eqb_neq in Hd.
    destruct (os_MkdirAll E h (dir fl) 493);
      [unfold_monad; subst out; discriminate|].
    destruct (os_OpenFile E _ _ _ _) as [f|e];
      [|unfold_monad; subst out; discriminate].
    subst out. intros _. cbn [fst snd self ret].
    split; [repeat split; auto; lia|].
    split; [repeat split; auto; symmetry; now apply HL|].
    split; [|auto].
    split; [reflexivity|]. split; [reflexivity|]. split; [discriminate|].
    apply sinks_agreeb_sound. unfold sinks_agreeb. simpl.
    now rewrite Nat.eqb_refl.
  - subst out. intros _. cbn [fst snd self ret].
    split; [repeat split; auto; try lia; discriminate|].
    split; [repeat split; auto; symmetry; now apply HL|].
    split; [|discriminate].
    split; [reflexivity|]. split; [reflexivity|]. split; [discriminate|].
    apply sinks_agreeb_sound. reflexivity.
Qed.

(** A command line with a negative lifetime is accepted. *)
Lemma X8_main_starts_only_when_valid_witness :
  fst (main_until_start (calm [])
         (mkFlags "http://host/logs/access.log" "/var/mirror" 2 0 (-1) true false)
         (mkState (New "" 0 0) [])) = true
  /\ Lifetime (self (snd (main_until_start (calm [])
         (mkFlags "http://host/logs/access.log" "/var/mirror" 2 0 (-1) true false)
         (mkState (New "" 0 0) [])))) = -1.
Proof.
  assert (H0 : fst (main_until_start (calm [])
         (mkFlags "http://host/logs/access.log" "/var/mirror" 2 0 (-1) true false)
         (mkState (New "" 0 0) [])) = true) by (vm_compute; reflexivity).
  split; [exact H0|].
  destruct (X8_main_starts_only_when_valid (calm [])
              (mkFlags "http://host/logs/access.log" "/var/mirror" 2 0 (-1) true false)
              (New "" 0 0) [] H0) as (_ & _ & _ & H).
  exact (proj2 (H eq_refl)).
Defined.

(** ** Probing and fetching *)

(** X9.  [LogSize] sends one [HEAD] request without headers and nothing
    else.  It fails in exactly three ways -- the request cannot be built, the
    transport fails, the status is not 200 -- and then reports the size 0;
    otherwise it reports the content length of the response.  A body that was
    received is closed, whatever the status; the session is not touched. *)
Theorem X9_LogSize_outcomes :
  forall (E : Env) (p : Portal) (h : History),
    let out := LogSize E (mkState p h) in
    let req := mkRequest "HEAD" (URL p) [] in
    self (snd out) = p
    /\ match snd (fst out) with
       | None =>
           exists resp,
             hist (snd out)
             = EvBodyClose :: EvDo req (Ok resp)
                 :: EvNewRequest "HEAD" (URL p) None :: h
             /\ StatusCode resp = StatusOK
             /\ fst (fst out) = ContentLength resp
       | Some e =>
           fst (fst out) = 0
           /\ ((exists e', hist (snd out) = EvNewRequest "HEAD" (URL p) (Some e') :: h
                           /\ e = "create new request: " ++ e')
               \/ (exists e', hist (snd out)
                              = EvDo req (Err e') :: EvNewRequest "HEAD" (URL p) None :: h
                              /\ e = "http head: " ++ e')
               \/ (exists resp,
                      hist (snd out)
                      = EvBodyClose :: EvDo req (Ok resp)
                          :: EvNewRequest "HEAD" (URL p) None :: h
                      /\ StatusCode resp <> StatusOK
                      /\ e = "unexpected status code: " ++ Str.fmt_d (StatusCode resp)))
       end.
Proof.
  intros E p h out req. subst out req. unfold LogSize. unfold_monad.
  destruct (http_NewRequest E h "HEAD" (URL p)) as [e1|]; simpl.
  { split; [reflexivity|]. split; [reflexivity|]. left. now exists e1. }
  destruct (client_Do E _ _) as [resp|e2]; simpl.
  2:{ split; [reflexivity|]. split; [reflexivity|]. right. left. now exists e2. }
  destruct (StatusCode resp =? StatusOK) eqn:Hst; simpl.
  - split; [reflexivity|]. exists resp. repeat split. lia.
  - split; [reflexivity|]. split; [reflexivity|]. right. right.
    exists resp. repeat split. lia.
Qed.

(** Every response body that is received is closed once, by the probe and
    by the ranged read alike. *)
Lemma LogSize_balance (E : Env) (s : State) :
  (closes (hist (snd (LogSize E s))) + responses (hist s)
   = closes (hist s) + responses (hist (snd (LogSize E s))))%nat.
Proof. unfold LogSize. unfold_monad. branches; lia. Qed.

Lemma FetchIncrContent_balance (E : Env) (a b : Z) (s : State) :
  (closes (hist (snd (FetchIncrContent E a b s))) + responses (hist s)
   = closes (hist s) + responses (hist (snd (FetchIncrContent E a b s))))%nat.
Proof. unfold FetchIncrContent. unfold_monad. branches; lia. Qed.

Lemma RotateFile_balance (E : Env) (s : State) :
  closes (hist (snd (RotateFile E s))) = closes (hist s)
  /\ responses (hist (snd (RotateFile E s))) = responses (hist s).
Proof. unfold RotateFile. unfold_monad. branches; auto. Qed.

Lemma tick_balance (E : Env) (s : State) :
  (closes (hist (snd (tick E s))) + responses (hist s)
   = closes (hist s) + responses (hist (snd (tick E s))))%nat.
Proof.
  remember (tick E s) as out eqn:Hout.
  unfold tick in Hout. unfold bind at 1 in Hout.
  pose proof (LogSize_balance E s) as H1.
  destruct (LogSize E s) as [[S_ getErr] s1]. simpl in H1.
  destruct getErr as [e|]; [unfold_monad; subst out; simpl; lia|].
  unfold bind at 1 in Hout. unfold get at 1 in Hout.
  destruct (S_ >? offset (self s1)).
  - unfold bind at 1 in Hout.
    pose proof (FetchIncrContent_balance E (offset (self s1)) S_ s1) as H2.
    destruct (FetchIncrContent E _ _ s1) as [err s2]. simpl in H2.
    destruct err; unfold_monad; subst out; simpl; lia.
  - destruct (S_ <? offset (self s1)); [|unfold_monad; subst out; simpl; lia].
    unfold bind at 1 in Hout.
    pose proof (RotateFile_balance E s1) as [H2 H3].
    destruct (RotateFile E s1) as [err s2]. simpl in H2, H3.
    destruct err; unfold_monad; subst out; simpl; lia.
Qed.

Lemma ticks_balance (E : Env) (n : nat) :
  forall s : State,
    (closes (hist (snd (ticks E n s))) + responses (hist s)
     = closes (hist s) + responses (hist (snd (ticks E n s))))%nat.
Proof.
  induction n as [|n IH]; intros s; simpl; [lia|].
  unfold bind. pose proof (tick_balance E s) as H1.
  destruct (tick E s) as [[] s1]. simpl in H1. specialize (IH s1). lia.
Qed.

Lemma initialFetch_balance (E : Env) (s : State) :
  (closes (hist (snd (initialFetch E s))) + responses (hist s)
   = closes (hist s) + responses (hist (snd (initialFetch E s))))%nat.
Proof.
  remember (initialFetch E s) as out eqn:Hout.
  unfold initialFetch in Hout. unfold bind at 1 in Hout.
  pose proof (LogSize_balance E s) as H1.
  destruct (LogSize E s) as [[S_ getErr] s1]. simpl in H1.
  destruct getErr as [e|]; [unfold_monad; subst out; simpl; lia|].
  unfold bind at 1 in Hout. unfold get at 1 in Hout.
  destruct (S_ =? 0); [unfold_monad; subst out; simpl; lia|].
  destruct (S_ <? Tail (self s1)); [unfold_monad; subst out; simpl; lia|].
  unfold bind at 1 in Hout.
  pose proof (FetchIncrContent_balance E (Int64.sub S_ (Tail (self s1))) S_ s1) as H2.
  destruct (FetchIncrContent E _ _ s1) as [err s2]. simpl in H2.
  destruct err; unfold_monad; subst out; simpl; lia.
Qed.

Lemma Start_before_loop_balance (E : Env) (s : State) :
  (closes (hist (snd (Start_before_loop E s))) + responses (hist s)
   = closes (hist s) + responses (hist (snd (Start_before_loop E s))))%nat.
Proof.
  remember (Start_before_loop E s) as out eqn:Hout.
  unfold Start_before_loop in Hout. unfold bind at 1 in Hout.
  unfold get at 1 in Hout. unfold bind at 1 in Hout.
  unfold Printf at 1 in Hout. unfold emit at 1 in Hout. cbn [self hist] in Hout.
  unfold bind at 1 in Hout.
  match type of Hout with context [initialFetch E ?s0] =>
    pose proof (initialFetch_balance E s0) as H1;
    destruct (initialFetch E s0) as [[c getErr] s1] end.
  simpl in H1. destruct getErr; unfold_monad; subst out; simpl; lia.
Qed.

(** X10.  No response body is left open: over [Start] for any number of
    ticks, the bodies closed are as many as the responses received,
    whatever the statuses and whichever copies fail. *)
Theorem X10_every_body_is_closed :
  forall (E : Env) (n : nat) (p : Portal) (h : History),
    closes h = responses h ->
    closes (hist (snd (Start E n (mkState p h))))
    = responses (hist (snd (Start E n (mkState p h)))).
Proof.
  intros E n p h Hh. unfold Start. unfold bind.
  pose proof (Start_before_loop_balance E (mkState p h)) as H0.
  destruct (Start_before_loop E (mkState p h)) as [c s0]. simpl in H0.
  pose proof (ticks_balance E n s0). lia.
Qed.

Lemma X10_every_body_is_closed_witness :
  closes (hist (snd (Start (scripted (mkScript [size 100; size 200; Err "EOF"; size 50]
                                               404 None None None a_clock))
                           4 (mkState console_session []))))
  = responses (hist (snd (Start (scripted (mkScript [size 100; size 200; Err "EOF"; size 50]
                                                    404 None None None a_clock))
                                4 (mkState console_session [])))).
Proof.
  apply (X10_every_body_is_closed
           (scripted (mkScript [size 100; size 200; Err "EOF"; size 50]
                               404 None None None a_clock))
           4 console_session []).
  reflexivity.
Defined.

(** X11.  [initialFetch] does nothing beyond the probe when the probe
    fails, or reports the size 0 or a size below [Tail]: no ranged read is
    sent and the size 0 comes back.  A non-zero size comes back only after
    the ranged read of bytes [S-Tail] to [S-1] was answered 206 and copied
    to the writer without error. *)
Theorem X11_initialFetch_skips_or_fetches :
  forall (E : Env) (p : Portal) (h : History),
    let probed := LogSize E (mkState p h) in
    let out := initialFetch E (mkState p h) in
    let S_ := fst (fst probed) in
    (snd (fst probed) <> None \/ S_ = 0 \/ S_ < Tail p ->
     snd out = snd probed /\ fst (fst out) = 0
     /\ (snd (fst probed) = None -> snd (fst out) = None))
    /\ (fst (fst out) <> 0 ->
        snd (fst out) = None /\ fst (fst out) = S_ /\ Tail p <= S_
        /\ exists resp,
            StatusCode resp = StatusPartialContent
            /\ hist (snd out)
               = EvBodyClose :: EvCopy (writer p) None
                   :: EvDo (mkRequest "GET" (URL p)
                              [("Range", range_header (Int64.sub S_ (Tail p)) S_)])
                           (Ok resp)
                   :: EvNewRequest "GET" (URL p) None :: hist (snd probed)).
Proof.
  intros E p h probed out S_. subst S_.
  assert (Hout : out = initialFetch E (mkState p h)) by reflexivity.
  assert (Hp : probed = LogSize E (mkState p h)) by reflexivity.
  clearbody out probed.
  unfold initialFetch in Hout. unfold bind at 1 in Hout.
  pose proof (LogSize_frame E (mkState p h)) as [Hself _].
  revert Hout Hp.
  destruct (LogSize E (mkState p h)) as [[S_ getErr] [p1 h1]].
  intros Hout Hp. simpl in Hself. subst p1 probed. cbn [fst snd].
  destruct getErr as [e|].
  { unfold_monad. subst out. simpl.
    split; [|intros H; now contradiction H].
    intros _. split; [reflexivity|]. split; [reflexivity|].
    intros Hx; first [reflexivity | discriminate Hx]. }
  unfold bind at 1 in Hout. unfold get at 1 in Hout. cbn [self] in Hout.
  destruct (S_ =? 0) eqn:H0.
  { unfold_monad. subst out. simpl.
    split; [|intros H; now contradiction H].
    intros _. split; [reflexivity|]. split; [reflexivity|].
    intros Hx; first [reflexivity | discriminate Hx]. }
  destruct (S_ <? Tail p) eqn:Ht.
  { unfold_monad. subst out. simpl.
    split; [|intros H; now contradiction H].
    intros _. split; [reflexivity|]. split; [reflexivity|].
    intros Hx; first [reflexivity | discriminate Hx]. }
  split.
  { intros [H|[H|H]]; [now contradiction H | lia | lia]. }
  revert Hout. unfold FetchIncrContent. unfold_monad.
  destruct (http_NewRequest E h1 "GET" (URL p)); simpl;
    [intros -> H; now contradiction H|].
  destruct (client_Do E _ _) as [resp|]; simpl; [|intros -> H; now contradiction H].
  destruct (StatusCode resp =? StatusPartialContent) eqn:Hst; simpl;
    [|intros -> H; now contradiction H].
  destruct (io_Copy E _ _); simpl; [intros -> H; now contradiction H|].
  intros -> _. simpl. split; [reflexivity|]. split; [reflexivity|]. split; [lia|].
  exists resp. split; [lia | reflexivity].
Qed.

(** A remote file shorter than the tail: only the probe is sent. *)
Lemma X11_initialFetch_skips_or_fetches_witness :
  requests (hist (snd (initialFetch (calm [size 5]) (mkState console_session []))))
  = [mkRequest "HEAD" "http://host/logs/access.log" []]
  /\ fst (fst (initialFetch (calm [size 100]) (mkState console_session []))) = 100.
Proof.
  split.
  - destruct (proj1 (X11_initialFetch_skips_or_fetches (calm [size 5]) console_session []))
      as (H & _ & _).
    + right. right. vm_compute. reflexivity.
    + cbv zeta in H. rewrite H. reflexivity.
  - destruct (proj2 (X11_initialFetch_skips_or_fetches (calm [size 100]) console_session []))
      as (_ & H & _).
    + vm_compute. discriminate.
    + exact H.
Defined.

(** X12.  With [Tail = 0] (the default of the flag [-t]) and a remote file
    that is not empty, the initial fetch still sends a ranged read, for the
    range that begins at the size: [Range: bytes=<S>-<S-1>]. *)
Theorem X12_zero_tail_requests_empty_range :
  forall (E : Env) (p : Portal) (h : History) (S_ : Z),
    Tail p = 0 ->
    fst (LogSize E (mkState p h)) = (S_, None) ->
    0 < S_ <= Int64.max_int ->
    http_NewRequest E (hist (snd (LogSize E (mkState p h)))) "GET" (URL p) = None ->
    hd_error (requests (hist (snd (initialFetch E (mkState p h)))))
    = Some (mkRequest "GET" (URL p)
              [("Range", "bytes=" ++ Str.fmt_d S_ ++ "-" ++ Str.fmt_d (S_ - 1))]).
Proof.
  intros E p h S_ HT HL HS Hreq.
  remember (initialFetch E (mkState p h)) as out eqn:Hout.
  unfold initialFetch in Hout. unfold bind at 1 in Hout.
  pose proof (LogSize_frame E (mkState p h)) as [Hself _].
  revert Hout HL Hreq.
  destruct (LogSize E (mkState p h)) as [[S' getErr] [p1 h1]].
  intros Hout HL Hreq.
  simpl in Hself, HL, Hreq. subst p1. inversion HL; subst S' getErr. clear HL.
  unfold bind at 1 in Hout. unfold get at 1 in Hout. cbn [self] in Hout.
  rewrite HT in Hout.
  assert ((S_ =? 0) = false) as E0 by lia.
  assert ((S_ <? 0) = false) as E1 by lia.
  rewrite E0, E1 in Hout.
  assert (Hsub : Int64.sub S_ 0 = S_).
  { unfold Int64.sub. rewrite Z.sub_0_r. apply wrap_small.
    unfold Int64.in_range, Int64.min_int, Int64.max_int in *. lia. }
  rewrite Hsub in Hout.
  revert Hout. unfold FetchIncrContent. unfold_monad. rewrite Hreq. simpl.
  rewrite range_header_exact
    by (unfold Int64.min_int, Int64.max_int in *; lia).
  destruct (client_Do E _ _) as [resp|]; simpl; [|intros ->; reflexivity].
  destruct (StatusCode resp =? StatusPartialContent); simpl; [|intros ->; reflexivity].
  destruct (io_Copy E _ _); intros ->; reflexivity.
Qed.

Lemma X12_zero_tail_requests_empty_range_witness :
  hd_error (requests (hist (snd (initialFetch (calm [size 100])
                                   (mkState (New "http://host/a.log" 2 0) [])))))
  = Some (mkRequest "GET" "http://host/a.log" [("Range", "bytes=100-99")]).
Proof.
  apply (X12_zero_tail_requests_empty_range (calm [size 100])
           (New "http://host/a.log" 2 0) [] 100).
  - reflexivity.
  - reflexivity.
  - vm_compute. split; [reflexivity | discriminate].
  - reflexivity.
Defined.

(** ** Single ticks *)

(** X13.  A tick whose probe reports the size the session is at does
    nothing but probe: no ranged read, no rotation, no output, the session
    unchanged. *)
Theorem X13_idle_tick_only_probes :
  forall (E : Env) (p : Portal) (h : History),
    fst (LogSize E (mkState p h)) = (offset p, None) ->
    tick E (mkState p h) = (tt, snd (LogSize E (mkState p h)))
    /\ self (snd (tick E (mkState p h))) = p.
Proof.
  intros E p h HL.
  remember (tick E (mkState p h)) as out eqn:Hout.
  unfold tick in Hout. unfold bind at 1 in Hout.
  pose proof (LogSize_frame E (mkState p h)) as [Hself _].
  revert Hout HL.
  destruct (LogSize E (mkState p h)) as [[S_ getErr] [p1 h1]].
  intros Hout HL. simpl in Hself, HL. subst p1. inversion HL; subst S_ getErr.
  revert Hout. unfold_monad. rewrite Z.gtb_ltb, Z.ltb_irrefl.
  intros ->. auto.
Qed.

Lemma X13_idle_tick_only_probes_witness :
  requests (hist (snd (tick (calm [size 70]) (mkState (set_offset 70 console_session) []))))
  = [mkRequest "HEAD" "http://host/logs/access.log" []].
Proof.
  rewrite (proj1 (X13_idle_tick_only_probes (calm [size 70])
                    (set_offset 70 console_session) [] eq_refl)).
  reflexivity.
Defined.

(** X14.  A tick whose probe reports a larger size [S] and whose ranged
    read succeeds has asked for exactly the bytes from the old offset to
    [S-1], copied them to the session's writer, and left the offset at [S]:
    the next read starts where this one ended. *)
Theorem X14_advancing_tick_reads_from_offset :
  forall (E : Env) (p : Portal) (h : History) (S_ : Z),
    fst (LogSize E (mkState p h)) = (S_, None) ->
    offset p < S_ ->
    fst (FetchIncrContent E (offset p) S_ (snd (LogSize E (mkState p h)))) = None ->
    let s' := snd (tick E (mkState p h)) in
    self s' = set_offset S_ p
    /\ exists resp,
        hist s'
        = EvBodyClose :: EvCopy (writer p) None
            :: EvDo (mkRequest "GET" (URL p) [("Range", range_header (offset p) S_)])
                    (Ok resp)
            :: EvNewRequest "GET" (URL p) None
            :: hist (snd (LogSize E (mkState p h))).
Proof.
  intros E p h S_ HL Hlt Hf s'.
  assert (Hout : s' = snd (tick E (mkState p h))) by reflexivity.
  clearbody s'.
  unfold tick in Hout. unfold bind at 1 in Hout.
  pose proof (LogSize_frame E (mkState p h)) as [Hself _].
  revert Hout HL Hf.
  destruct (LogSize E (mkState p h)) as [[S' getErr] [p1 h1]].
  intros Hout HL Hf.
  simpl in Hself, HL, Hf. subst p1. inversion HL; subst S' getErr. clear HL.
  cbn [snd hist]. unfold bind at 1 in Hout. unfold get at 1 in Hout.
  cbn [self] in Hout.
  assert ((S_ >? offset p) = true) as Hgt by lia. rewrite Hgt in Hout.
  revert Hout Hf. unfold FetchIncrContent. unfold_monad.
  destruct (http_NewRequest E h1 "GET" (URL p)); simpl; [intros _; discriminate|].
  destruct (client_Do E _ _) as [resp|]; simpl; [|intros _; discriminate].
  destruct (StatusCode resp =? StatusPartialContent); simpl; [|intros _; discriminate].
  destruct (io_Copy E _ _); simpl; [intros _; discriminate|].
  intros -> _. split; [reflexivity|]. now exists resp.
Qed.

(** Two ticks in a row: bytes 0 to 49, then bytes 50 to 79. *)
Lemma X14_advancing_tick_reads_from_offset_witness :
  offset (self (snd (tick (calm [size 50]) (mkState console_session [])))) = 50
  /\ map Header (requests (hist (snd (ticks (calm [size 50; size 80]) 2
                                            (mkState console_session [])))))
     = [[("Range", "bytes=50-79")]; []; [("Range", "bytes=0-49")]; []].
Proof.
  split; [|vm_compute; reflexivity].
  destruct (X14_advancing_tick_reads_from_offset (calm [size 50]) console_session [] 50
              eq_refl ltac:(vm_compute; reflexivity) eq_refl) as [H _].
  rewrite H. reflexivity.
Defined.


(** ** Rotation and shutdown, step by step *)

(** X15.  [RotateFile] with the file sink off does nothing at all.  With it
    on, the steps come in a fixed order and each needs the one before: the
    live file is renamed only after it was flushed and closed without error,
    nothing is closed after a failed flush, and a new file is opened only
    after the rename succeeded. *)
Theorem X15_RotateFile_steps_in_order :
  forall (E : Env) (p : Portal) (h : History),
    let out := RotateFile E (mkState p h) in
    (FilePortal p = false -> out = (None, mkState p (EvRotateFile :: h)))
    /\ exists new,
        hist (snd out) = (new ++ h)%list
        /\ (forall a b r,
               In (EvRename a b r) new ->
               exists f, file p = Some f
                         /\ In (EvSync f None) new /\ In (EvClose f None) new)
        /\ (forall f e, In (EvSync f (Some e)) new ->
                        forall g r, ~ In (EvClose g r) new)
        /\ (forall path flag perm r,
               In (EvOpenFile path flag perm r) new ->
               exists a b, In (EvRename a b None) new).
Proof.
  intros E p h out. subst out. unfold RotateFile. unfold_monad.
  destruct (FilePortal p) eqn:HF; simpl.
  2:{ split; [reflexivity|]. new_events. simpl.
      split; [|split].
      - intros a b r [H|[]]. discriminate.
      - intros f e [H|[]]. discriminate.
      - intros path flag perm r [H|[]]. discriminate. }
  split; [discriminate|].
  destruct (file p) as [f0|] eqn:Hfile; simpl.
  2:{ new_events. simpl. split; [|split].
      - intros a b r [H|[]]. discriminate.
      - intros f e [H|[]]. discriminate.
      - intros path flag perm r [H|[]]. discriminate. }
  destruct (file_Sync E (EvRotateFile :: h) f0) as [e1|] eqn:Hsync; simpl.
  { new_events. simpl. split; [|split].
    - intros a b r [H|[H|[]]]; discriminate.
    - intros f e _ g r [H|[H|[]]]; discriminate.
    - intros path flag perm r [H|[H|[]]]; discriminate. }
  match goal with |- context [file_Close E ?hh f0] =>
    destruct (file_Close E hh f0) as [e2|] eqn:Hclose end; simpl.
  { new_events. simpl. split; [|split].
    - intros a b r [H|[H|[H|[]]]]; discriminate.
    - intros f e [H|[H|[H|[]]]]; discriminate.
    - intros path flag perm r [H|[H|[H|[]]]]; discriminate. }
  match goal with |- context [os_Rename E ?hh ?a ?b] =>
    destruct (os_Rename E hh a b) as [e3|] eqn:Hren end; simpl.
  { new_events. simpl. split; [|split].
    - intros a b r _. exists f0. split; [reflexivity|].
      split; [do 3 right; now left | do 2 right; now left].
    - intros f e [H|[H|[H|[H|[H|[]]]]]]; discriminate.
    - intros path flag perm r [H|[H|[H|[H|[H|[]]]]]]; discriminate. }
  match goal with |- context [os_OpenFile E ?hh ?a ?b ?c] =>
    destruct (os_OpenFile E hh a b c) as [f1|e4] eqn:Hopen end; simpl.
  - new_events. simpl. split; [|split].
    + intros a b r _. exists f0. split; [reflexivity|].
      split; [do 4 right; now left | do 3 right; now left].
    + intros f e [H|[H|[H|[H|[H|[H|[]]]]]]]; discriminate.
    + intros path flag perm r _. eexists _, _. right. left. reflexivity.
  - new_events. simpl. split; [|split].
    + intros a b r _. exists f0. split; [reflexivity|].
      split; [do 4 right; now left | do 3 right; now left].
    + intros f e [H|[H|[H|[H|[H|[H|[]]]]]]]; discriminate.
    + intros path flag perm r _. eexists _, _. right. left. reflexivity.
Qed.

Lemma X15_RotateFile_steps_in_order_witness :
  RotateFile (calm []) (mkState console_session [])
  = (None, mkState console_session [EvRotateFile]).
Proof.
  apply (proj1 (X15_RotateFile_steps_in_order (calm []) console_session [])).
  reflexivity.
Defined.

(** X16.  [Finalize] rotates once and then flushes and closes whatever
    handle the session holds at that point, as its last two calls: the
    fresh, still empty live file when the rotation succeeded, and the old
    handle once more when the rotation failed.  With no file in the session
    it makes no call to the file system.  It sends no request. *)
Theorem X16_Finalize_closes_current_handle :
  forall (E : Env) (p : Portal) (h : History),
    let rotated := RotateFile E (mkState p h) in
    let out := Finalize E (mkState p h) in
    self (snd out) = self (snd rotated)
    /\ requests (hist (snd out)) = requests h
    /\ match file (self (snd rotated)) with
       | Some f =>
           exists r1 r2,
             hist (snd out)
             = EvClose f r2 :: EvSync f r1 :: hist (snd rotated)
       | None => hist (snd out) = hist (snd rotated)
       end
    /\ (file p = None -> hist (snd out) = EvRotateFile :: h).
Proof.
  intros E p h rotated out.
  assert (Hout : out = Finalize E (mkState p h)) by reflexivity.
  assert (Hrot : rotated = RotateFile E (mkState p h)) by reflexivity.
  clearbody out rotated.
  unfold Finalize in Hout. unfold bind at 1 in Hout. rewrite <- Hrot in Hout.
  assert (Hreq : requests (hist (snd rotated)) = requests h).
  { subst rotated. unfold RotateFile. unfold_monad. branches; reflexivity. }
  assert (Hnone : file p = None -> rotated = (match FilePortal p with
                     | true => Some ("sync file: " ++ nil_file)
                     | false => None end, mkState p (EvRotateFile :: h))).
  { intros Hf. subst rotated. unfold RotateFile. unfold_monad.
    rewrite Hf. destruct (FilePortal p); reflexivity. }
  destruct rotated as [err [p1 h1]]. cbn [snd self hist] in *.
  revert Hout. unfold_monad. destruct (file p1) as [f|] eqn:Hf1; simpl.
  - intros ->. simpl. split; [reflexivity|]. split; [exact Hreq|].
    split; [eexists _, _; reflexivity|].
    intros Hf. specialize (Hnone Hf). inversion Hnone; subst. congruence.
  - intros ->. simpl. split; [reflexivity|]. split; [exact Hreq|].
    split; [reflexivity|].
    intros Hf. specialize (Hnone Hf). now inversion Hnone.
Qed.

(** Shutdown of a console-only session: nothing touches the file system. *)
Lemma X16_Finalize_closes_current_handle_witness :
  hist (snd (Finalize (calm []) (mkState console_session []))) = [EvRotateFile].
Proof.
  apply (proj2 (proj2 (proj2 (X16_Finalize_closes_current_handle
                                (calm []) console_session [])))).
  reflexivity.
Defined.

(** ** When the sweeper fails *)

Lemma walk_stops_quiet (s : State) (new : History) (p : Portal) (h : History) :
  s = mkState p (new ++ h)%list ->
  forallb sweeper_event new = true ->
  (forall n e, ~ In (EvRemove n (Some e)) new) ->
  walk_stops (None, s) h.
Proof.
  intros -> Hsw Hno. exists new. split; [reflexivity|]. split; [exact Hsw|].
  split; [intros _; exact Hno|].
  intros n e Hin. now apply Hno in Hin.
Qed.

Lemma visit_file_stops (E : Env) (p : Portal) (path name : string) (h : History) :
  walk_stops (visit E path (Some (File name)) None (mkState p h)) h.
Proof.
  rewrite visit_file.
  destruct (String.eqb name (filename p)).
  { apply (walk_stops_quiet _ [] p h); [reflexivity | reflexivity | intros n e []]. }
  cbv zeta. destruct (match_result _ _ _ _).
  2:{ apply (walk_stops_quiet _ [EvNow (time_Now E h)] p h);
        [reflexivity | reflexivity | intros n e [H|[]]; discriminate]. }
  destruct (os_Remove E _ name) as [e|] eqn:Hrm.
  - exists [EvRemove name (Some e); EvNow (time_Now E h)].
    split; [reflexivity|]. split; [reflexivity|]. split; [discriminate|].
    intros n e' [H|[H|[]]]; [|discriminate]. inversion H; subst.
    eexists. split; [reflexivity|]. split; [reflexivity|].
    intros n' e'' [H'|[]]. discriminate.
  - apply (walk_stops_quiet _ [EvRemove name None; EvNow (time_Now E h)] p h);
      [reflexivity | reflexivity | intros n e [H|[H|[]]]; discriminate].
Qed.

Lemma range_dirs_stops (E : Env) (p : Portal) (dirs : list DirTree) :
  Forall (fun d => forall path h,
              walk_stops (walkDir E (visit E) path d (mkState p h)) h) dirs ->
  forall path h,
    walk_stops (range_dirs E (walkDir E (visit E)) path dirs (mkState p h)) h.
Proof.
  induction 1 as [|d1 rest Hd1 _ IH]; intros path h.
  - apply (walk_stops_quiet _ [] p h); [reflexivity | reflexivity | intros n e []].
  - cbn [range_dirs]. unfold bind at 1.
    specialize (Hd1 (filepath_Join E path (Name d1)) h).
    pose proof (proj1 (walkDir_spec E p d1 (filepath_Join E path (Name d1)) h)) as Hp1.
    destruct (walkDir E (visit E) _ d1 (mkState p h)) as [err [p1 h1]].
    simpl in Hp1. subst p1.
    destruct Hd1 as (new1 & Hh1 & Hsw1 & Hno1 & Hfail1). simpl in *. subst h1.
    destruct err as [e|].
    + exists new1. split; [reflexivity|]. split; [exact Hsw1|].
      split; [discriminate | exact Hfail1].
    + specialize (IH path (new1 ++ h)%list).
      destruct (range_dirs E (walkDir E (visit E)) path rest _) as [err2 s2].
      destruct IH as (new2 & Hh2 & Hsw2 & Hno2 & Hfail2). simpl in *.
      specialize (Hno1 eq_refl).
      exists (new2 ++ new1)%list. split; [now rewrite <- app_assoc|].
      split; [rewrite forallb_app, Hsw1, Hsw2; reflexivity|].
      split.
      * intros Hnone n e Hin. apply in_app_or in Hin as [Hin|Hin].
        -- exact (Hno2 Hnone n e Hin).
        -- exact (Hno1 n e Hin).
      * intros n e Hin. apply in_app_or in Hin as [Hin|Hin].
        -- destruct (Hfail2 n e Hin) as (rest2 & -> & Herr & Hrest).
           exists (rest2 ++ new1)%list. split; [reflexivity|]. split; [exact Herr|].
           intros n' e' Hin'. apply in_app_or in Hin' as [Hin'|Hin'].
           ++ exact (Hrest n' e' Hin').
           ++ exact (Hno1 n' e' Hin').
        -- now apply Hno1 in Hin.
Qed.

Lemma walkDir_stops (E : Env) (p : Portal) (d : DirTree) :
  forall path h, walk_stops (walkDir E (visit E) path d (mkState p h)) h.
Proof.
  induction d as [name|name dirs readErr IH] using DirTree_ind; intros path h.
  - cbn [walkDir]. unfold bind at 1.
    pose proof (visit_file_stops E p path name h) as H.
    destruct (visit E path (Some (File name)) None (mkState p h)) as [err s1].
    destruct err; exact H.
  - cbn [walkDir]. unfold bind at 1. rewrite visit_dir.
    unfold bind at 1. unfold emit at 1. cbn [self hist].
    unfold bind at 1.
    destruct readErr as [e|].
    + rewrite visit_dir. unfold ret.
      exists [EvReadDir path (Some e)]. split; [reflexivity|].
      split; [reflexivity|]. split; [discriminate|].
      intros n e' [H|[]]. discriminate.
    + unfold ret at 1.
      pose proof (range_dirs_stops E p dirs IH path (EvReadDir path None :: h)) as H.
      destruct (range_dirs E (walkDir E (visit E)) path dirs _) as [err s2].
      destruct H as (new2 & Hh2 & Hsw2 & Hno2 & Hfail2). simpl in *.
      exists (new2 ++ [EvReadDir path None])%list.
      split; [now rewrite <- app_assoc|].
      split; [rewrite forallb_app, Hsw2; reflexivity|].
      split.
      * intros Hnone n e Hin. apply in_app_or in Hin as [Hin|[Hin|[]]];
          [exact (Hno2 Hnone n e Hin) | discriminate].
      * intros n e Hin. apply in_app_or in Hin as [Hin|[Hin|[]]]; [|discriminate].
        destruct (Hfail2 n e Hin) as (rest2 & -> & Herr & Hrest).
        exists (rest2 ++ [EvReadDir path None])%list.
        split; [reflexivity|]. split; [exact Herr|].
        intros n' e' Hin'. apply in_app_or in Hin' as [Hin'|[Hin'|[]]];
          [exact (Hrest n' e' Hin') | discriminate].
Qed.

(** X17.  [Clean] touches the world only by listing directories, reading
    the clock and removing files, and never changes the session.  It gives
    up at the first deletion that fails: the failed [os.Remove] is its last
    call and its error is returned as it is, so a sweep that returns no
    error has had every deletion succeed.  When the mirror directory cannot
    be examined at all, that error is returned and nothing else happens. *)
Theorem X17_Clean_stops_at_first_failure :
  forall (E : Env) (p : Portal) (h : History) (tree : DirTree) (e0 : error),
    (let out := Clean E (Ok tree) (mkState p h) in
     self (snd out) = p
     /\ exists new,
         hist (snd out) = (new ++ h)%list
         /\ forallb sweeper_event new = true
         /\ (fst out = None -> forall n e, ~ In (EvRemove n (Some e)) new)
         /\ (forall n e,
                In (EvRemove n (Some e)) new ->
                exists rest, new = EvRemove n (Some e) :: rest
                             /\ fst out = Some e
                             /\ forall n' e', ~ In (EvRemove n' (Some e')) rest))
    /\ Clean E (Err e0) (mkState p h) = (Some e0, mkState p h).
Proof.
  intros E p h tree e0. split; [|reflexivity].
  cbv zeta. split; [exact (proj1 (Clean_spec E p h tree))|].
  unfold Clean, WalkDir. unfold bind at 1. unfold bind at 2. unfold bind at 3.
  unfold get. cbn [self]. unfold bind.
  pose proof (walkDir_stops E p tree (Dir p) h) as H.
  destruct (walkDir E (visit E) (Dir p) tree (mkState p h)) as [err s1].
  destruct H as (new & Hh & Hsw & Hstop).
  exists new. destruct err; (split; [exact Hh|]); (split; [exact Hsw|]);
    exact Hstop.
Qed.

(** Two expired archives and a file system that refuses to delete: only the
    first deletion is tried. *)
Lemma X17_Clean_stops_at_first_failure_witness :
  removals (hist (snd (Clean (scripted (mkScript [] 206 None None (Some "no such file") a_clock))
                             (Ok (Directory "mirror"
                                    [File old_archive;
                                     File "b-2019-01-01T00-00-00.000.log"] None))
                             (mkState file_session []))))
  = [old_archive].
Proof.
  destruct (X17_Clean_stops_at_first_failure
              (scripted (mkScript [] 206 None None (Some "no such file") a_clock))
              file_session []
              (Directory "mirror"
                 [File old_archive; File "b-2019-01-01T00-00-00.000.log"] None)
              "") as [(_ & new & Hh & _ & _ & Hfail) _].
  rewrite Hh, app_nil_r.
  assert (Hin : In (EvRemove old_archive (Some "no such file")) new).
  { rewrite app_nil_r in Hh. rewrite <- Hh. vm_compute. left. reflexivity. }
  destruct (Hfail _ _ Hin) as (rest & -> & _ & _).
  rewrite app_nil_r in Hh.
  assert (Hr : removals (hist (snd (Clean (scripted (mkScript [] 206 None None (Some "no such file") a_clock))
                             (Ok (Directory "mirror"
                                    [File old_archive;
                                     File "b-2019-01-01T00-00-00.000.log"] None))
                             (mkState file_session [])))) = [old_archive])
    by (vm_compute; reflexivity).
  rewrite Hh in Hr. exact Hr.
Defined.

(** ** Archives the sweeper can never match *)

Lemma skip_length (c : ascii) (v v' : string) :
  GoTime.skip c v = Some v' -> String.length v = S (String.length v').
Proof.
  destruct v as [|x v]; simpl; [discriminate|].
  destruct (Ascii.eqb x c); [|discriminate]. intros H; inversion H; reflexivity.
Qed.

Lemma getnum_length (v v' : string) (fixed : bool) (n : Z) :
  GoTime.getnum v fixed = Some (n, v') ->
  (String.length v <= String.length v' + 2)%nat.
Proof.
  unfold GoTime.getnum. destruct v as [|c0 [|c1 rest]]; try discriminate.
  - destruct (GoTime.isDigit c0); [|discriminate]. destruct fixed; [discriminate|].
    intros H; inversion H; subst. simpl. lia.
  - destruct (GoTime.isDigit c0); [|discriminate].
    destruct (GoTime.isDigit c1).
    + intros H; inversion H; subst. simpl. lia.
    + destruct fixed; [discriminate|]. intros H; inversion H; subst. simpl. lia.
Qed.

Lemma drop_length (n : nat) (s : string) :
  String.length (Str.drop n s) = (String.length s - n)%nat.
Proof.
  revert s. induction n as [|n IH]; intros s; simpl.
  - lia.
  - destruct s as [|c s]; simpl; [reflexivity | apply IH].
Qed.

(** A string that parses as a timestamp has at most 23 bytes. *)
Lemma parseCivil_length (value : string) (c : GoTime.civil) :
  GoTime.parseCivil value = Some c -> (String.length value <= 23)%nat.
Proof.
  unfold GoTime.parseCivil, GoTime.guard, GoTime.obind. intros H.
  repeat match type of H with
         | match ?x with _ => _ end = Some _ =>
             let E := fresh "E" in destruct x eqn:E; [|discriminate]
         | (let '(_, _) := ?x in _) = Some _ => destruct x
         | (if ?b then _ else None) = Some _ =>
             let E := fresh "E" in destruct b eqn:E; [|discriminate]
         end.
  repeat match goal with
         | E : GoTime.skip _ _ = Some _ |- _ => apply skip_length in E
         | E : GoTime.getnum _ _ = Some _ |- _ => apply getnum_length in E
         | E : (String.length _ =? 0)%nat = true |- _ => apply Nat.eqb_eq in E
         end.
  rewrite drop_length in *. lia.
Qed.

Lemma contains_split (sep : ascii) (s : string) :
  Str.contains sep s = true ->
  exists a b, s = a ++ String sep b /\ Str.contains sep a = false.
Proof.
  induction s as [|c s IH]; simpl; [discriminate|].
  destruct (Ascii.eqb c sep) eqn:Hc; simpl.
  - intros _. apply Ascii.eqb_eq in Hc. subst c. now exists "", s.
  - intros H. destruct (IH H) as (a & b & -> & Ha).
    exists (String c a), b. simpl. rewrite Hc. auto.
Qed.

Lemma hyphen_prefix_never_matches (loc : GoTime.Location) (lifetime : Z)
      (now : GoTime.Time) (prefix T : string) :
  Str.contains "-" prefix = true ->
  (23 <= String.length T)%nat ->
  match_result loc lifetime now (prefix ++ "-" ++ T ++ ".log") = false.
Proof.
  intros Hc HT. destruct (contains_split "-" prefix Hc) as (a & b & -> & Ha).
  unfold match_result.
  replace ((a ++ String "-" b) ++ "-" ++ T ++ ".log")
    with (a ++ String "-" ((b ++ "-" ++ T) ++ ".log"))
    by (rewrite !str_app_assoc; reflexivity).
  rewrite (SplitN2_app_sep "-" a _ Ha).
  destruct (HasSuffix_app (b ++ "-" ++ T) ".log") as [Hs Ht].
  rewrite Hs, Ht. simpl negb. cbv iota.
  unfold GoTime.ParseInLocation.
  destruct (GoTime.parseCivil (b ++ "-" ++ T)) as [c|] eqn:Hp; [|reflexivity].
  apply parseCivil_length in Hp. rewrite !str_app_length in Hp. simpl in Hp. lia.
Qed.

(** X18.  The archive that [RotateFile] makes for a live filename whose
    archive prefix contains a hyphen (such as [my-app.log]) is never matched
    by the sweeper: [match] cuts the name at its first hyphen and what
    follows is too long to be a timestamp.  Whatever the clock and the
    retention, such an archive is never deleted. *)
Theorem X18_hyphenated_archives_never_match :
  forall (loc loc' : GoTime.Location) (t now : GoTime.Time) (lifetime : Z)
         (fname : string),
    0 <= GoTime.year (GoTime.In loc t) <= 9999 ->
    0 <= GoTime.nsec t < 1000000000 ->
    Str.contains "-" (archive_prefix fname) = true ->
    match_result loc' lifetime now (archive_name fname (GoTime.Format loc t)) = false.
Proof.
  intros loc loc' t now lifetime fname Hy Hn Hc.
  unfold archive_name. apply hyphen_prefix_never_matches; [exact Hc|].
  rewrite (proj2 (Format_fixed_width loc t Hy Hn)). lia.
Qed.

Lemma X18_hyphenated_archives_never_match_witness :
  match_result east8 0 a_clock
    (archive_name "my-app.log" (GoTime.Format east8 (GoTime.mkTime 0 0))) = false.
Proof.
  apply (X18_hyphenated_archives_never_match east8 east8 (GoTime.mkTime 0 0)
           a_clock 0 "my-app.log").
  - vm_compute. split; discriminate.
  - vm_compute. split; [discriminate | reflexivity].
  - vm_compute. reflexivity.
Defined.
